(** * Sokoverse: session manager and OAuth login initiation

    A shallow embedding of [src/lib/server/auth/session.ts] and of the
    Google login route handler ([GET]), with the properties of the
    session lifecycle stated and proved over it.

    Conventions.
    - A [Date] is its [getTime()] value: integer milliseconds since the
      epoch, as a [Z].  All the arithmetic the code does on such values
      is exact on JavaScript numbers in the range of [Date], and the
      tables give a stored date back as it was written.
    - A table is the list of its rows, in insertion order; a query result
      is a list of rows in table order.
    - [Date.now()] reads a clock owned by the world: the k-th call made
      since the world began returns [clock w k].  Nothing is assumed
      about the clock in the definitions; theorems say what they need
      (a clock that stands still during a call, or one that does not run
      backwards).
    - [async]/[await] is sequential composition in a state-and-exception
      monad [M]: a rejected promise is [Throw].
    - Functions of external packages ([TextEncoder], [@oslojs/crypto],
      [@oslojs/encoding], [arctic], the URL serialiser) are parameters
      of the development; the random generators of [arctic] draw from
      an entropy source owned by the world. *)

From Stdlib Require Import ZArith List String Ascii Bool Lia.
From Stdlib Require Strings.Byte.
Import ListNotations.
Local Open Scope string_scope.
Local Open Scope list_scope.
Local Open Scope Z_scope.

Set Implicit Arguments.

(** ** Cookies ([next/headers]) *)

Inductive SameSite := Lax | Strict | NoneSite.

Record Cookie := mkCookie {
  c_name : string;
  c_value : string;
  c_path : string;
  c_httpOnly : bool;
  c_secure : bool;
  c_sameSite : SameSite;
  c_maxAge : option Z;      (* seconds *)
  c_expires : option Z      (* a Date *)
}.

(** [cookieStore.get(name)]. *)
Definition cookie_get (name : string) (store : list Cookie) : option Cookie :=
  find (fun c => String.eqb (c_name c) name) store.

(** [cookieStore.set(name, value, options)]: the store is keyed by cookie
    name; a cookie of the same name is replaced where it stands, a new
    one is added at the end. *)
Fixpoint cookie_set (c : Cookie) (store : list Cookie) : list Cookie :=
  match store with
  | [] => [c]
  | d :: rest =>
      if String.eqb (c_name d) (c_name c) then c :: rest
      else d :: cookie_set c rest
  end.

(** ** URLs *)

Record URL := mkURL {
  url_base : string;
  url_searchParams : list (string * string)
}.

(** [URLSearchParams.get(name)]: the value of the first pair named [name]. *)
Definition searchParams_get (name : string) (ps : list (string * string))
  : option string :=
  option_map snd (find (fun p => String.eqb (fst p) name) ps).

Definition searchParams_remove (name : string) (ps : list (string * string)) :=
  filter (fun p => negb (String.eqb (fst p) name)) ps.

(** [URLSearchParams.set(name, value)]: the first pair named [name] gets
    the value and the other pairs of that name are removed; without such
    a pair, one is appended. *)
Fixpoint searchParams_set (name value : string) (ps : list (string * string))
  : list (string * string) :=
  match ps with
  | [] => [(name, value)]
  | p :: rest =>
      if String.eqb (fst p) name
      then (name, value) :: searchParams_remove name rest
      else p :: searchParams_set name value rest
  end.

Section Sokoverse.

Set Default Proof Using "Type".

(** ** External collaborators *)

(** The profile fields of a user row, owned by the persistence layer. *)
Variable Profile : Type.

(** [new TextEncoder().encode], [sha256] of [@oslojs/crypto/sha2] and
    [encodeHexLowerCase] of [@oslojs/encoding]. *)
Variable TextEncoder_encode : string -> list Byte.byte.
Variable sha256 : list Byte.byte -> list Byte.byte.
Variable encodeHexLowerCase : list Byte.byte -> string.

(** [google.createAuthorizationURL(state, codeVerifier, scopes)] of
    [arctic], and [URL.prototype.toString]. *)
Variable createAuthorizationURL : string -> string -> list string -> URL.
Variable URL_toString : URL -> string.

(** ** Data model *)

(** Modelled from the spec: the schema module [@/lib/server/db/schema] is
    not among the sources.  A session row is what [createSession] builds
    (id, userId, expiresAt); a user row is an identifier and profile
    fields. *)
Record Session := mkSession {
  id : string;
  userId : Z;
  expiresAt : Z
}.

Record User := mkUser {
  user_id : Z;
  user_profile : Profile
}.

(** [SessionValidationResult]: [{ session, user }] or
    [{ session: null, user: null }]. *)
Inductive SessionValidationResult :=
| Valid (session : Session) (user : User)
| NoSession.

(** ** The ["use cache"] store ([next/cache]) *)

Record CacheLife := mkCacheLife {
  stale : Z;
  revalidate : Z;
  expire : Z
}.

(** One stored result of a ["use cache"] function: the argument it was
    computed for, the value, the tags and the lifetime declared while it
    was computed ([None]: the framework's default profile). *)
Record CacheEntry := mkCacheEntry {
  ce_key : option string;
  ce_value : SessionValidationResult;
  ce_tags : list string;
  ce_life : option CacheLife
}.

(** ** The world *)

Record World := mkWorld {
  sessionTable : list Session;
  userTable : list User;
  clock : nat -> Z;
  reads : nat;
  cookieStore : list Cookie;
  NODE_ENV : string;
  entropy : nat -> string;
  draws : nat;
  cacheStore : list CacheEntry;
  scopeTags : list string;
  scopeLife : option CacheLife
}.

Definition set_sessionTable (t : list Session) (w : World) : World :=
  mkWorld t (userTable w) (clock w) (reads w) (cookieStore w) (NODE_ENV w)
          (entropy w) (draws w) (cacheStore w) (scopeTags w) (scopeLife w).

Definition set_reads (n : nat) (w : World) : World :=
  mkWorld (sessionTable w) (userTable w) (clock w) n (cookieStore w)
          (NODE_ENV w) (entropy w) (draws w) (cacheStore w) (scopeTags w)
          (scopeLife w).

Definition set_cookieStore (cs : list Cookie) (w : World) : World :=
  mkWorld (sessionTable w) (userTable w) (clock w) (reads w) cs (NODE_ENV w)
          (entropy w) (draws w) (cacheStore w) (scopeTags w) (scopeLife w).

Definition set_draws (n : nat) (w : World) : World :=
  mkWorld (sessionTable w) (userTable w) (clock w) (reads w) (cookieStore w)
          (NODE_ENV w) (entropy w) n (cacheStore w) (scopeTags w)
          (scopeLife w).

Definition set_cache (es : list CacheEntry) (ts : list string)
           (l : option CacheLife) (w : World) : World :=
  mkWorld (sessionTable w) (userTable w) (clock w) (reads w) (cookieStore w)
          (NODE_ENV w) (entropy w) (draws w) es ts l.

(** ** The monad of server code *)

Inductive DbError := UniqueViolation | ForeignKeyViolation.

Inductive Res (A : Type) :=
| Ok (a : A) (w : World)
| Throw (e : DbError) (w : World).

Arguments Throw {A} e w.

Definition M (A : Type) := World -> Res A.

Definition ret {A} (a : A) : M A := fun w => Ok a w.

Definition bind {A B} (m : M A) (k : A -> M B) : M B :=
  fun w => match m w with
           | Ok a w' => k a w'
           | Throw e w' => Throw e w'
           end.

Notation "x <- m ;; k" := (bind m (fun x => k))
  (at level 61, m at next level, right associativity).
Notation "m ;;; k" := (bind m (fun _ => k))
  (at level 61, right associativity).

(** The world a computation leaves behind, returned or thrown. *)
Definition world_after {A} (r : Res A) : World :=
  match r with Ok _ w => w | Throw _ w => w end.

(** [Date.now()]. *)
Definition Date_now : M Z :=
  fun w => Ok (clock w (reads w)) (set_reads (S (reads w)) w).

(** [await cookies()]: the store is read and written in place. *)
Definition cookies_set (c : Cookie) : M unit :=
  fun w => Ok tt (set_cookieStore (cookie_set c (cookieStore w)) w).

Definition cookies_get (name : string) : M (option Cookie) :=
  fun w => Ok (cookie_get name (cookieStore w)) w.

(** [process.env.NODE_ENV]. *)
Definition env_NODE_ENV : M string := fun w => Ok (NODE_ENV w) w.

(** [cacheTag(tag)] and [cacheLife(profile)], inside a ["use cache"] scope. *)
Definition cacheTag (tag : string) : M unit :=
  fun w => Ok tt (set_cache (cacheStore w) (scopeTags w ++ [tag]) (scopeLife w) w).

Definition cacheLife (l : CacheLife) : M unit :=
  fun w => Ok tt (set_cache (cacheStore w) (scopeTags w) (Some l) w).

(** ** The persistence collaborator (drizzle over the two tables) *)

(** Modelled from the spec: the table declarations are not among the
    sources.  The session identifier is the storage key of the session
    table, and a session references its user by foreign key; an insert
    that breaks either is rejected. *)
Definition has_session_id (sid : string) (t : list Session) : bool :=
  existsb (fun s => String.eqb (id s) sid) t.

Definition has_user_id (uid : Z) (t : list User) : bool :=
  existsb (fun u => user_id u =? uid) t.

(** [db.insert(sessionTable).values(session)]. *)
Definition db_insert_session (s : Session) : M unit :=
  fun w =>
    if has_session_id (id s) (sessionTable w) then Throw UniqueViolation w
    else if negb (has_user_id (userId s) (userTable w))
    then Throw ForeignKeyViolation w
    else Ok tt (set_sessionTable (sessionTable w ++ [s]) w).

(** [sessionTable INNER JOIN userTable ON session.userId = user.id]. *)
Definition innerJoin (ss : list Session) (us : list User)
  : list (User * Session) :=
  flat_map (fun s =>
              map (fun u => (u, s))
                  (filter (fun u => userId s =? user_id u) us)) ss.

(** [db.select({user, session}).from(sessionTable).innerJoin(...)
      .where(eq(sessionTable.id, sessionId))]. *)
Definition db_select_user_session (sessionId : string)
  : M (list (User * Session)) :=
  fun w =>
    Ok (filter (fun r => String.eqb (id (snd r)) sessionId)
               (innerJoin (sessionTable w) (userTable w))) w.

(** [db.delete(sessionTable).where(eq(sessionTable.id, sessionId))]. *)
Definition delete_by_id (sessionId : string) (t : list Session) :=
  filter (fun s => negb (String.eqb (id s) sessionId)) t.

Definition db_delete_session_by_id (sessionId : string) : M unit :=
  fun w => Ok tt (set_sessionTable (delete_by_id sessionId (sessionTable w)) w).

(** [db.delete(sessionTable).where(eq(sessionTable.userId, userId))]. *)
Definition delete_by_userId (uid : Z) (t : list Session) :=
  filter (fun s => negb (userId s =? uid)) t.

Definition db_delete_session_by_userId (uid : Z) : M unit :=
  fun w => Ok tt (set_sessionTable (delete_by_userId uid (sessionTable w)) w).

(** [db.update(sessionTable).set({expiresAt}).where(eq(sessionTable.id,
    sessionId))]. *)
Definition update_expiresAt (e : Z) (sessionId : string) (t : list Session) :=
  map (fun s => if String.eqb (id s) sessionId
                then mkSession (id s) (userId s) e else s) t.

Definition db_update_session_expiresAt (e : Z) (sessionId : string) : M unit :=
  fun w => Ok tt (set_sessionTable (update_expiresAt e sessionId (sessionTable w)) w).

(** ** session.ts *)

(** [encodeHexLowerCase(sha256(new TextEncoder().encode(token)))]. *)
Definition sessionIdOf (token : string) : string :=
  encodeHexLowerCase (sha256 (TextEncoder_encode token)).

Definition createSession (token : string) (userId : Z) : M Session :=
  let sessionId := encodeHexLowerCase (sha256 (TextEncoder_encode token)) in
  now <- Date_now ;;
  let session := mkSession sessionId userId (now + 1000 * 60 * 60 * 24 * 30) in
  db_insert_session session ;;;
  ret session.

Definition validateSessionToken (token : string) : M SessionValidationResult :=
  let sessionId := encodeHexLowerCase (sha256 (TextEncoder_encode token)) in
  result <- db_select_user_session sessionId ;;
  match result with
  | [] => ret NoSession
  | (user, session) :: _ =>
      now1 <- Date_now ;;
      if now1 >=? expiresAt session then
        db_delete_session_by_id (id session) ;;;
        ret NoSession
      else
        now2 <- Date_now ;;
        if now2 >=? expiresAt session - 1000 * 60 * 60 * 24 * 15 then
          now3 <- Date_now ;;
          let session' :=
            mkSession (id session) (userId session)
                      (now3 + 1000 * 60 * 60 * 24 * 30) in
          db_update_session_expiresAt (expiresAt session') (id session') ;;;
          ret (Valid session' user)
        else
          ret (Valid session user)
  end.

Definition invalidateSession (sessionId : string) : M unit :=
  db_delete_session_by_id sessionId.

Definition invalidateAllSessions (userId : Z) : M unit :=
  db_delete_session_by_userId userId.

Definition setSessionTokenCookie (token : string) (expiresAt : Z) : M unit :=
  env <- env_NODE_ENV ;;
  cookies_set (mkCookie "session" token "/" true (String.eqb env "production")
                        Lax None (Some expiresAt)).

Definition deleteSessionTokenCookie : M unit :=
  env <- env_NODE_ENV ;;
  cookies_set (mkCookie "session" "" "/" true (String.eqb env "production")
                        Lax (Some 0) None).

(** The body of [getCurrentSessionCached], run on a cache miss. *)
Definition getCurrentSessionCached_body (token : option string)
  : M SessionValidationResult :=
  match token with
  | None => ret NoSession
  | Some token =>
      result <- validateSessionToken token ;;
      match result with
      | NoSession => ret NoSession
      | Valid session _ =>
          cacheTag ("session:" ++ id session)%string ;;;
          now <- Date_now ;;
          let expiresAt := expiresAt session in
          let remainingTime := Z.max 0 ((expiresAt - now) / 1000) in
          cacheLife (mkCacheLife 0 remainingTime remainingTime) ;;;
          ret result
      end
  end.

Definition key_eqb (a b : option string) : bool :=
  match a, b with
  | None, None => true
  | Some x, Some y => String.eqb x y
  | _, _ => false
  end.

(** Modelled from the spec: the ["use cache"] directive is the cache
    collaborator, "compute-and-cache keyed by token, supporting tag-based
    invalidation and a per-entry time-to-live".  A stored entry for the
    argument is served as it is; otherwise the body runs in a fresh scope
    and whatever it returns is stored with the tags and the lifetime it
    declared.  Eviction (by age or by tag) is the framework's and is not
    part of this function. *)
Definition use_cache (key : option string) (body : M SessionValidationResult)
  : M SessionValidationResult :=
  fun w =>
    match find (fun e => key_eqb (ce_key e) key) (cacheStore w) with
    | Some e => Ok (ce_value e) w
    | None =>
        match body (set_cache (cacheStore w) [] None w) with
        | Ok r w' =>
            Ok r (set_cache
                    (cacheStore w' ++
                       [mkCacheEntry key r (scopeTags w') (scopeLife w')])
                    [] None w')
        | Throw e w' => Throw e w'
        end
    end.

Definition getCurrentSessionCached (token : option string)
  : M SessionValidationResult :=
  use_cache token (getCurrentSessionCached_body token).

Definition getCurrentSession : M SessionValidationResult :=
  c <- cookies_get "session" ;;
  getCurrentSessionCached (option_map c_value c).

(** ** The login route *)

Record Response := mkResponse {
  status : Z;
  headers : list (string * string)
}.

(** [generateState()] and [generateCodeVerifier()] of [arctic]: each call
    takes the next string of the world's entropy. *)
Definition draw : M string :=
  fun w => Ok (entropy w (draws w)) (set_draws (S (draws w)) w).

Definition generateState : M string := draw.
Definition generateCodeVerifier : M string := draw.

Definition GET : M Response :=
  state <- generateState ;;
  codeVerifier <- generateCodeVerifier ;;
  let url := createAuthorizationURL state codeVerifier ["openid"; "profile"] in
  let url := mkURL (url_base url)
                   (searchParams_set "prompt" "select_account"
                                     (url_searchParams url)) in
  env1 <- env_NODE_ENV ;;
  cookies_set (mkCookie "google_oauth_state" state "/" true
                        (String.eqb env1 "production") Lax (Some (60 * 10)) None) ;;;
  env2 <- env_NODE_ENV ;;
  cookies_set (mkCookie "google_code_verifier" codeVerifier "/" true
                        (String.eqb env2 "production") Lax (Some (60 * 10)) None) ;;;
  ret (mkResponse 302 [("Location", URL_toString url)]).

(** ** Sequences of session-manager operations *)

Inductive Op :=
| OpCreateSession (token : string) (userId : Z)
| OpValidateSessionToken (token : string)
| OpInvalidateSession (sessionId : string)
| OpInvalidateAllSessions (userId : Z)
| OpSetSessionTokenCookie (token : string) (expiresAt : Z)
| OpDeleteSessionTokenCookie
| OpGetCurrentSession.

(** One call, its result dropped; a call that throws leaves the world it
    threw in. *)
Definition run_op (o : Op) (w : World) : World :=
  match o with
  | OpCreateSession token userId => world_after (createSession token userId w)
  | OpValidateSessionToken token => world_after (validateSessionToken token w)
  | OpInvalidateSession sessionId => world_after (invalidateSession sessionId w)
  | OpInvalidateAllSessions userId => world_after (invalidateAllSessions userId w)
  | OpSetSessionTokenCookie token e => world_after (setSessionTokenCookie token e w)
  | OpDeleteSessionTokenCookie => world_after (deleteSessionTokenCookie w)
  | OpGetCurrentSession => world_after (getCurrentSession w)
  end.

Definition run_ops (ops : list Op) (w : World) : World :=
  fold_left (fun w o => run_op o w) ops w.

(** The tokens handed to [createSession] in a sequence of operations. *)
Definition created_tokens (ops : list Op) : list string :=
  flat_map (fun o => match o with
                     | OpCreateSession token _ => [token]
                     | _ => []
                     end) ops.

(** ** Auxiliary definitions of the properties *)

(** The rows the joined lookup of [validateSessionToken] returns. *)
Definition rows_of (sid : string) (ss : list Session) (us : list User) :=
  filter (fun r : User * Session => String.eqb (id (snd r)) sid)
         (innerJoin ss us).

(** The row an update leaves in place of [s]. *)
Definition renewed (e : Z) (sid : string) (s : Session) : Session :=
  if String.eqb (id s) sid then mkSession (id s) (userId s) e else s.

(** What one operation can do to the session table. *)
Definition table_step (ss ss' : list Session) : Prop :=
  ss' = ss \/
  (exists sid, ss' = delete_by_id sid ss) \/
  (exists uid, ss' = delete_by_userId uid ss) \/
  (exists e sid, ss' = update_expiresAt e sid ss).

(** The constraints of the schema on a world: session identifiers are
    unique and every session has its user row. *)
Definition wf_db (w : World) : Prop :=
  NoDup (map id (sessionTable w)) /\
  forall s, In s (sessionTable w) ->
            exists u, In u (userTable w) /\ user_id u = userId s.

(** The clock shows [t] at every reading from now on. *)
Definition clock_stands_at (t : Z) (w : World) : Prop :=
  forall k : nat, clock w (reads w + k) = t.

(** From now on the clock never runs backwards. *)
Definition clock_monotone (w : World) : Prop :=
  forall i j : nat, (reads w <= i)%nat -> (i <= j)%nat -> clock w i <= clock w j.

(** [n] days, in milliseconds. *)
Definition days (n : Z) : Z := 1000 * 60 * 60 * 24 * n.

Unset Implicit Arguments.

(** * Properties *)

(** ** Record bookkeeping *)

Lemma set_sessionTable_same (w : World) :
  set_sessionTable (sessionTable w) w = w.
Proof. destruct w; reflexivity. Qed.

Lemma filter_all {A} (f : A -> bool) (l : list A) :
  (forall x, In x l -> f x = true) -> filter f l = l.
Proof.
  induction l as [|a l IH]; intros H; cbn; [reflexivity|].
  rewrite (H a (or_introl eq_refl)), IH; [reflexivity|].
  intros x Hx. apply H. now right.
Qed.

Lemma filter_none {A} (f : A -> bool) (l : list A) :
  (forall x, In x l -> f x = false) -> filter f l = [].
Proof.
  induction l as [|a l IH]; intros H; cbn; [reflexivity|].
  rewrite (H a (or_introl eq_refl)). apply IH.
  intros x Hx. apply H. now right.
Qed.

(** ** The joined lookup *)

Lemma rows_of_In sid ss us u s :
  In (u, s) (rows_of sid ss us) <->
  In s ss /\ In u us /\ id s = sid /\ userId s = user_id u.
Proof.
  unfold rows_of, innerJoin. rewrite filter_In, in_flat_map. cbn [snd]. split.
  - intros [[s0 [Hs0 Hin]] Hid].
    apply in_map_iff in Hin. destruct Hin as [u0 [Heq Hu0]].
    inversion Heq; subst. apply filter_In in Hu0. destruct Hu0 as [Hu Hm].
    apply String.eqb_eq in Hid. apply Z.eqb_eq in Hm. auto.
  - intros (Hs & Hu & Hid & Hm). split.
    + exists s. split; [assumption|]. apply in_map_iff. exists u.
      split; [reflexivity|]. apply filter_In. split; [assumption|].
      now apply Z.eqb_eq.
    + now apply String.eqb_eq.
Qed.

Lemma rows_of_app sid ss1 ss2 us :
  rows_of sid (ss1 ++ ss2) us = rows_of sid ss1 us ++ rows_of sid ss2 us.
Proof. unfold rows_of, innerJoin. now rewrite flat_map_app, filter_app. Qed.

Lemma rows_of_absent sid ss us :
  (forall s, In s ss -> id s <> sid) -> rows_of sid ss us = [].
Proof.
  intros H. destruct (rows_of sid ss us) as [|[u s] rest] eqn:E; [reflexivity|].
  assert (Hin : In (u, s) (rows_of sid ss us)) by (rewrite E; now left).
  apply rows_of_In in Hin. destruct Hin as (Hs & _ & Hid & _).
  now destruct (H s Hs).
Qed.

Lemma rows_of_single sid s us :
  id s = sid ->
  rows_of sid [s] us =
  map (fun u => (u, s)) (filter (fun u => userId s =? user_id u) us).
Proof.
  intros Hid. unfold rows_of, innerJoin. cbn [flat_map]. rewrite app_nil_r.
  apply filter_all. intros [u s0] Hin. apply in_map_iff in Hin.
  destruct Hin as [u0 [Heq _]]. inversion Heq; subst. cbn. apply String.eqb_refl.
Qed.

Lemma rows_of_unique sid ss us s :
  NoDup (map id ss) -> In s ss -> id s = sid ->
  rows_of sid ss us =
  map (fun u => (u, s)) (filter (fun u => userId s =? user_id u) us).
Proof.
  induction ss as [|a ss IH]; intros Hnd Hin Hid; [contradiction|].
  cbn [map] in Hnd. inversion Hnd as [|x l Hnotin Hnd']; subst x l.
  change (a :: ss) with ([a] ++ ss). rewrite rows_of_app.
  destruct Hin as [Heq | Hin].
  - subst a. rewrite (@rows_of_single sid s us Hid).
    rewrite (@rows_of_absent sid ss us), app_nil_r; [reflexivity|].
    intros s' Hs' Heq. apply Hnotin. rewrite Hid, <- Heq. now apply in_map.
  - rewrite (@rows_of_absent sid [a] us).
    + cbn [app]. now apply IH.
    + intros s' [<-|[]] Heq. apply Hnotin. rewrite Heq, <- Hid. now apply in_map.
Qed.

Lemma owner_row (us : list User) (uid : Z) :
  (exists u, In u us /\ user_id u = uid) ->
  exists u rest, filter (fun u => uid =? user_id u) us = u :: rest /\
                 In u us /\ user_id u = uid.
Proof.
  intros [u [Hu Hid]].
  destruct (filter (fun u => uid =? user_id u) us) as [|u0 rest] eqn:E.
  - assert (Hin : In u (filter (fun u => uid =? user_id u) us)).
    { apply filter_In. split; [assumption|]. apply Z.eqb_eq. now symmetry. }
    rewrite E in Hin. contradiction.
  - exists u0, rest. split; [reflexivity|].
    assert (Hin : In u0 (filter (fun u => uid =? user_id u) us))
      by (rewrite E; now left).
    apply filter_In in Hin. destruct Hin as [Hin Hm]. apply Z.eqb_eq in Hm.
    split; [assumption | now symmetry].
Qed.

(** ** [validateSessionToken], branch by branch *)

Lemma validate_absent token w :
  rows_of (sessionIdOf token) (sessionTable w) (userTable w) = [] ->
  validateSessionToken token w = Ok NoSession w.
Proof.
  intros H. unfold validateSessionToken, bind, db_select_user_session.
  fold (sessionIdOf token).
  fold (rows_of (sessionIdOf token) (sessionTable w) (userTable w)).
  now rewrite H.
Qed.

Lemma validate_expired token w u s rest :
  rows_of (sessionIdOf token) (sessionTable w) (userTable w) = (u, s) :: rest ->
  expiresAt s <= clock w (reads w) ->
  validateSessionToken token w =
  Ok NoSession
     (set_sessionTable (delete_by_id (id s) (sessionTable w))
                       (set_reads (S (reads w)) w)).
Proof.
  intros H Hexp. unfold validateSessionToken, bind, db_select_user_session.
  fold (sessionIdOf token).
  fold (rows_of (sessionIdOf token) (sessionTable w) (userTable w)).
  rewrite H. unfold Date_now at 1.
  destruct (Z.geb_spec (clock w (reads w)) (expiresAt s)); [reflexivity | lia].
Qed.

Lemma validate_renew token w u s rest :
  rows_of (sessionIdOf token) (sessionTable w) (userTable w) = (u, s) :: rest ->
  clock w (reads w) < expiresAt s ->
  expiresAt s - days 15 <= clock w (S (reads w)) ->
  validateSessionToken token w =
  Ok (Valid (mkSession (id s) (userId s)
                       (clock w (S (S (reads w))) + days 30)) u)
     (set_sessionTable
        (update_expiresAt (clock w (S (S (reads w))) + days 30) (id s)
                          (sessionTable w))
        (set_reads (S (S (S (reads w)))) w)).
Proof.
  intros H Hlive Hwin. unfold validateSessionToken, bind, db_select_user_session.
  fold (sessionIdOf token).
  fold (rows_of (sessionIdOf token) (sessionTable w) (userTable w)).
  rewrite H. unfold Date_now at 1.
  destruct (Z.geb_spec (clock w (reads w)) (expiresAt s)); [lia|].
  unfold Date_now at 1. cbn [clock reads set_reads].
  destruct (Z.geb_spec (clock w (S (reads w)))
                       (expiresAt s - 1000 * 60 * 60 * 24 * 15));
    [reflexivity | unfold days in Hwin; lia].
Qed.

Lemma validate_keep token w u s rest :
  rows_of (sessionIdOf token) (sessionTable w) (userTable w) = (u, s) :: rest ->
  clock w (reads w) < expiresAt s ->
  clock w (S (reads w)) < expiresAt s - days 15 ->
  validateSessionToken token w =
  Ok (Valid s u) (set_reads (S (S (reads w))) w).
Proof.
  intros H Hlive Hwin. unfold validateSessionToken, bind, db_select_user_session.
  fold (sessionIdOf token).
  fold (rows_of (sessionIdOf token) (sessionTable w) (userTable w)).
  rewrite H. unfold Date_now at 1.
  destruct (Z.geb_spec (clock w (reads w)) (expiresAt s)); [lia|].
  unfold Date_now at 1. cbn [clock reads set_reads].
  destruct (Z.geb_spec (clock w (S (reads w)))
                       (expiresAt s - 1000 * 60 * 60 * 24 * 15));
    [unfold days in Hwin; lia | reflexivity].
Qed.

(** Every call of [validateSessionToken] takes one of the four branches;
    in particular it always returns. *)
Lemma validate_cases token w :
  let rows := rows_of (sessionIdOf token) (sessionTable w) (userTable w) in
  (rows = [] /\ validateSessionToken token w = Ok NoSession w) \/
  (exists u s rest,
      rows = (u, s) :: rest /\ expiresAt s <= clock w (reads w) /\
      validateSessionToken token w =
      Ok NoSession
         (set_sessionTable (delete_by_id (id s) (sessionTable w))
                           (set_reads (S (reads w)) w))) \/
  (exists u s rest,
      rows = (u, s) :: rest /\ clock w (reads w) < expiresAt s /\
      expiresAt s - days 15 <= clock w (S (reads w)) /\
      validateSessionToken token w =
      Ok (Valid (mkSession (id s) (userId s)
                           (clock w (S (S (reads w))) + days 30)) u)
         (set_sessionTable
            (update_expiresAt (clock w (S (S (reads w))) + days 30) (id s)
                              (sessionTable w))
            (set_reads (S (S (S (reads w)))) w))) \/
  (exists u s rest,
      rows = (u, s) :: rest /\ clock w (reads w) < expiresAt s /\
      clock w (S (reads w)) < expiresAt s - days 15 /\
      validateSessionToken token w =
      Ok (Valid s u) (set_reads (S (S (reads w))) w)).
Proof.
  intros rows. subst rows.
  destruct (rows_of (sessionIdOf token) (sessionTable w) (userTable w))
    as [|[u s] rest] eqn:E.
  - left. split; [reflexivity | now apply validate_absent].
  - right. destruct (Z_lt_le_dec (clock w (reads w)) (expiresAt s)) as [Hl|Hl].
    + right.
      destruct (Z_lt_le_dec (clock w (S (reads w))) (expiresAt s - days 15))
        as [Hk|Hk].
      * right. exists u, s, rest. repeat split; try assumption.
        now apply validate_keep with (rest := rest).
      * left. exists u, s, rest. repeat split; try assumption.
        now apply validate_renew with (rest := rest).
    + left. exists u, s, rest. repeat split; try assumption.
      now apply validate_expired with (u := u) (rest := rest).
Qed.

Lemma rows_of_stored ss us s :
  NoDup (map id ss) -> In s ss ->
  (exists u, In u us /\ user_id u = userId s) ->
  exists u rest, rows_of (id s) ss us = (u, s) :: rest /\
                 In u us /\ user_id u = userId s.
Proof.
  intros Hnd Hin Hown.
  rewrite (@rows_of_unique (id s) ss us s Hnd Hin eq_refl).
  destruct (owner_row _ _ Hown) as (u & rest & E & Hu & Hid).
  rewrite E. cbn [map]. eauto.
Qed.

Lemma rows_of_orphan ss us s :
  NoDup (map id ss) -> In s ss ->
  (forall u, In u us -> user_id u <> userId s) ->
  rows_of (id s) ss us = [].
Proof.
  intros Hnd Hin Hnone.
  rewrite (@rows_of_unique (id s) ss us s Hnd Hin eq_refl).
  rewrite filter_none; [reflexivity|].
  intros u Hu. apply Z.eqb_neq. intros E. now apply (Hnone u Hu).
Qed.

Lemma delete_by_id_In sid ss s :
  In s (delete_by_id sid ss) <-> In s ss /\ id s <> sid.
Proof.
  unfold delete_by_id. rewrite filter_In, negb_true_iff, String.eqb_neq.
  reflexivity.
Qed.

Lemma rows_of_deleted sid ss us :
  rows_of sid (delete_by_id sid ss) us = [].
Proof.
  apply rows_of_absent. intros s Hs. now apply delete_by_id_In in Hs.
Qed.

Lemma renewed_id e sid s : id (renewed e sid s) = id s.
Proof. unfold renewed. now destruct (String.eqb (id s) sid). Qed.

Lemma renewed_userId e sid s : userId (renewed e sid s) = userId s.
Proof. unfold renewed. now destruct (String.eqb (id s) sid). Qed.

Lemma update_expiresAt_map e sid ss :
  update_expiresAt e sid ss = map (renewed e sid) ss.
Proof. reflexivity. Qed.

Lemma update_expiresAt_ids e sid ss :
  map id (update_expiresAt e sid ss) = map id ss.
Proof.
  rewrite update_expiresAt_map, map_map. apply map_ext. apply renewed_id.
Qed.

Lemma rows_of_updated e sid' sid ss us :
  rows_of sid (update_expiresAt e sid' ss) us =
  map (fun r => (fst r, renewed e sid' (snd r))) (rows_of sid ss us).
Proof.
  rewrite update_expiresAt_map.
  induction ss as [|a ss IH]; [reflexivity|].
  cbn [map]. change (renewed e sid' a :: map (renewed e sid') ss)
    with ([renewed e sid' a] ++ map (renewed e sid') ss).
  change (a :: ss) with ([a] ++ ss).
  rewrite !rows_of_app, map_app, IH. f_equal.
  destruct (String.eqb_spec (id a) sid) as [Hid|Hid].
  - rewrite (@rows_of_single sid a us Hid).
    rewrite (@rows_of_single sid (renewed e sid' a) us)
      by (now rewrite renewed_id).
    rewrite renewed_userId, map_map. reflexivity.
  - rewrite !rows_of_absent; [reflexivity | |].
    + intros s [<-|[]]. exact Hid.
    + intros s [<-|[]]. now rewrite renewed_id.
Qed.

(** ** The clock *)

Lemma stands_now t w : clock_stands_at t w -> clock w (reads w) = t.
Proof. intros H. specialize (H 0%nat). now rewrite Nat.add_0_r in H. Qed.

Lemma stands_1 t w : clock_stands_at t w -> clock w (S (reads w)) = t.
Proof. intros H. specialize (H 1%nat). now rewrite Nat.add_1_r in H. Qed.

Lemma stands_2 t w : clock_stands_at t w -> clock w (S (S (reads w))) = t.
Proof.
  intros H. specialize (H 2%nat).
  now replace (reads w + 2)%nat with (S (S (reads w))) in H by lia.
Qed.

(** ** [createSession] *)

Lemma has_session_id_false sid ss :
  has_session_id sid ss = false -> forall s, In s ss -> id s <> sid.
Proof.
  unfold has_session_id. intros H s Hs E.
  assert (existsb (fun s => String.eqb (id s) sid) ss = true).
  { apply existsb_exists. exists s. split; [assumption|]. now apply String.eqb_eq. }
  congruence.
Qed.

Lemma has_user_id_true uid us :
  has_user_id uid us = true <-> exists u, In u us /\ user_id u = uid.
Proof.
  unfold has_user_id. rewrite existsb_exists.
  split; intros [u [Hu E]]; exists u; (split; [assumption|]);
    now apply Z.eqb_eq.
Qed.

Lemma createSession_ok token uid w s w' :
  createSession token uid w = Ok s w' ->
  s = mkSession (sessionIdOf token) uid (clock w (reads w) + days 30) /\
  w' = set_sessionTable (sessionTable w ++ [s]) (set_reads (S (reads w)) w) /\
  has_session_id (sessionIdOf token) (sessionTable w) = false /\
  has_user_id uid (userTable w) = true.
Proof.
  unfold createSession, bind, Date_now, db_insert_session, ret.
  fold (sessionIdOf token).
  cbn [sessionTable userTable set_reads id userId].
  destruct (has_session_id (sessionIdOf token) (sessionTable w)); [discriminate|].
  destruct (has_user_id uid (userTable w)); cbn [negb]; [|discriminate].
  intros H. inversion H; subst. repeat split; reflexivity.
Qed.

(** A session just created is the one the lookup finds. *)
Lemma rows_after_create token uid w s w' :
  createSession token uid w = Ok s w' ->
  exists u rest,
    rows_of (sessionIdOf token) (sessionTable w') (userTable w') = (u, s) :: rest /\
    In u (userTable w) /\ user_id u = uid.
Proof.
  intros H. destruct (createSession_ok _ _ _ _ _ H) as (Hs & Hw & Hfresh & Huser).
  apply has_user_id_true in Huser.
  assert (Hsid : id s = sessionIdOf token) by (now rewrite Hs).
  assert (Huid : userId s = uid) by (now rewrite Hs).
  rewrite <- Huid in Huser.
  destruct (owner_row _ _ Huser) as (u & rest & E & Hu & Hid).
  exists u, (map (fun u => (u, s)) rest).
  rewrite Hw. cbn [sessionTable userTable set_sessionTable set_reads].
  rewrite rows_of_app.
  rewrite (@rows_of_absent (sessionIdOf token) (sessionTable w))
    by (now apply has_session_id_false).
  rewrite (@rows_of_single (sessionIdOf token) s (userTable w) Hsid), E.
  cbn [app map]. repeat split; [assumption | congruence].
Qed.

(** [createSession] then [validateSessionToken], as long as less than
    fifteen days pass between the two. *)
Lemma validate_after_create_soon token uid w s w' :
  createSession token uid w = Ok s w' ->
  clock w (S (reads w)) < clock w (reads w) + days 30 ->
  clock w (S (S (reads w))) < clock w (reads w) + days 15 ->
  exists u,
    validateSessionToken token w' =
    Ok (Valid s u) (set_reads (S (S (reads w'))) w') /\
    In u (userTable w) /\ user_id u = uid.
Proof.
  intros H H1 H2.
  destruct (rows_after_create _ _ _ _ _ H) as (u & rest & E & Hu & Hid).
  destruct (createSession_ok _ _ _ _ _ H) as (Hs & Hw & _ & _).
  exists u. repeat split; try assumption.
  apply validate_keep with (rest := rest); [assumption | |];
    rewrite Hw, Hs; cbn [clock reads set_sessionTable set_reads expiresAt];
    unfold days in *; lia.
Qed.

(** C1.  For every token and every existing user: if [createSession]
    succeeds and the clock stands still, [validateSessionToken] on the same
    token right afterwards returns exactly the session that [createSession]
    returned, together with a user row whose identifier is the given
    [userId]; the session table is left as it was. *)
Theorem validate_after_create token uid w s w' :
  (exists u, In u (userTable w) /\ user_id u = uid) ->
  (exists t, clock_stands_at t w) ->
  createSession token uid w = Ok s w' ->
  exists u w'',
    validateSessionToken token w' = Ok (Valid s u) w'' /\
    In u (userTable w) /\ user_id u = uid /\
    id s = sessionIdOf token /\ userId s = uid /\
    sessionTable w'' = sessionTable w'.
Proof.
  intros _ [t Ht] H.
  destruct (@validate_after_create_soon token uid w s w' H) as (u & Hv & Hu & Hid).
  - rewrite (stands_now _ _ Ht), (stands_1 _ _ Ht). unfold days. lia.
  - rewrite (stands_now _ _ Ht), (stands_2 _ _ Ht). unfold days. lia.
  - destruct (createSession_ok _ _ _ _ _ H) as (Hs & _).
    exists u, (set_reads (S (S (reads w'))) w').
    repeat split; try assumption; now rewrite Hs.
Qed.

(** ** Expiry and renewal *)

Lemma unique_id_row ss a b :
  NoDup (map id ss) -> In a ss -> In b ss -> id a = id b -> a = b.
Proof.
  induction ss as [|c ss IH]; intros Hnd Ha Hb E; [contradiction|].
  cbn [map] in Hnd. inversion Hnd as [|x l Hnotin Hnd']; subst x l.
  destruct Ha as [<-|Ha], Hb as [<-|Hb].
  - reflexivity.
  - destruct Hnotin. rewrite E. now apply in_map.
  - destruct Hnotin. rewrite <- E. now apply in_map.
  - now apply IH.
Qed.

Lemma renewed_self e s :
  renewed e (id s) s = mkSession (id s) (userId s) e.
Proof. unfold renewed. now rewrite String.eqb_refl. Qed.

(** C3.  For every stored session (in a database that keeps the schema's
    constraints), [validateSessionToken] called when the clock is at or
    past the session's expiry returns the "no session" result, without
    throwing, and leaves a session table from which the record is gone
    while every other record is still there. *)
Theorem expired_session_is_deleted token w s :
  wf_db w -> In s (sessionTable w) -> id s = sessionIdOf token ->
  expiresAt s <= clock w (reads w) ->
  exists w',
    validateSessionToken token w = Ok NoSession w' /\
    sessionTable w' = delete_by_id (id s) (sessionTable w) /\
    ~ In s (sessionTable w') /\
    (forall s', In s' (sessionTable w') -> id s' <> id s) /\
    (forall s', id s' <> id s ->
                (In s' (sessionTable w') <-> In s' (sessionTable w))).
Proof.
  intros [Hnd Hfk] Hin Hid Hexp.
  destruct (rows_of_stored _ (userTable w) _ Hnd Hin (Hfk s Hin))
    as (u & rest & E & _).
  rewrite Hid in E.
  eexists. split; [exact (validate_expired _ _ _ _ _ E Hexp)|].
  cbn [sessionTable set_sessionTable set_reads].
  split; [reflexivity|]. split; [|split].
  - intros H. apply delete_by_id_In in H. now destruct H.
  - intros s' H. now apply delete_by_id_In in H.
  - intros s' Hne. rewrite delete_by_id_In.
    split; [intros [H _]; exact H | intros H; split; assumption].
Qed.

(** C2.  For every stored session (in a database that keeps the schema's
    constraints) and a clock standing at [t]: validation within fifteen
    days of the expiry and before it returns the session with expiry
    [t + 30 days] and stores that expiry; validation earlier than fifteen
    days before the expiry returns the session as stored and writes
    nothing.  And the example: a session created at [t0], validated at
    [t0 + 20 days], comes back with expiry [t0 + 50 days]; validated again
    at [t0 + 51 days] it yields "no session". *)
Theorem sliding_renewal :
  (forall token w s t,
      wf_db w -> In s (sessionTable w) -> id s = sessionIdOf token ->
      clock_stands_at t w ->
      (expiresAt s - days 15 <= t < expiresAt s ->
       exists u w',
         validateSessionToken token w =
         Ok (Valid (mkSession (id s) (userId s) (t + days 30)) u) w' /\
         sessionTable w' =
         update_expiresAt (t + days 30) (id s) (sessionTable w) /\
         In (mkSession (id s) (userId s) (t + days 30)) (sessionTable w') /\
         (forall s', In s' (sessionTable w') -> id s' = id s ->
                     expiresAt s' = t + days 30)) /\
      (t < expiresAt s - days 15 ->
       exists u w',
         validateSessionToken token w = Ok (Valid s u) w' /\
         sessionTable w' = sessionTable w)) /\
  (forall token uid w s w1 t0,
      createSession token uid w = Ok s w1 ->
      clock w (reads w) = t0 ->
      clock w (reads w + 1) = t0 + days 20 ->
      clock w (reads w + 2) = t0 + days 20 ->
      clock w (reads w + 3) = t0 + days 20 ->
      clock w (reads w + 4) = t0 + days 51 ->
      exists u w2 w3,
        expiresAt s = t0 + days 30 /\
        validateSessionToken token w1 =
        Ok (Valid (mkSession (id s) uid (t0 + days 50)) u) w2 /\
        validateSessionToken token w2 = Ok NoSession w3 /\
        (forall s', In s' (sessionTable w3) -> id s' <> id s)).
Proof.
  split.
  - intros token w s t [Hnd Hfk] Hin Hid Ht.
    destruct (rows_of_stored _ (userTable w) _ Hnd Hin (Hfk s Hin))
      as (u & rest & E & _).
    rewrite Hid in E.
    pose proof (stands_now _ _ Ht) as H0.
    pose proof (stands_1 _ _ Ht) as H1.
    pose proof (stands_2 _ _ Ht) as H2.
    split.
    + intros [Hlo Hhi]. exists u. eexists. split.
      * rewrite <- H2 at 1. apply validate_renew with (rest := rest);
          [exact E | lia | lia].
      * cbn [sessionTable set_sessionTable set_reads]. rewrite H2.
        split; [reflexivity|]. split.
        -- rewrite update_expiresAt_map, <- renewed_self.
           now apply in_map.
        -- intros s' Hs' Hid'. rewrite update_expiresAt_map in Hs'.
           apply in_map_iff in Hs'. destruct Hs' as (s0 & <- & Hs0).
           rewrite renewed_id in Hid'.
           rewrite (unique_id_row _ _ _ Hnd Hs0 Hin Hid'), renewed_self.
           reflexivity.
    + intros Hearly. exists u. eexists. split.
      * apply validate_keep with (rest := rest);
          [exact E | unfold days in *; lia | lia].
      * reflexivity.
  - intros token uid w s w1 t0 Hc T0 T1 T2 T3 T4.
    rewrite Nat.add_1_r in T1.
    replace (reads w + 2)%nat with (S (S (reads w))) in T2 by lia.
    replace (reads w + 3)%nat with (S (S (S (reads w)))) in T3 by lia.
    replace (reads w + 4)%nat with (S (S (S (S (reads w))))) in T4 by lia.
    destruct (rows_after_create _ _ _ _ _ Hc) as (u & rest & E & _ & _).
    destruct (createSession_ok _ _ _ _ _ Hc) as (Hs & Hw & _ & _).
    assert (Hexp : expiresAt s = t0 + days 30) by (rewrite Hs, T0; reflexivity).
    assert (Huid : userId s = uid) by (now rewrite Hs).
    assert (Hr : reads w1 = S (reads w)) by (now rewrite Hw).
    assert (Hck : clock w1 = clock w) by (now rewrite Hw).
    exists u. eexists. eexists. split; [exact Hexp|]. split; [|split].
    + rewrite (validate_renew _ _ _ _ _ E);
        rewrite ?Hr, ?Hck, ?T1, ?T2, ?T3, ?Hexp, ?Huid; unfold days; try lia.
      replace (t0 + 1000 * 60 * 60 * 24 * 20 + 1000 * 60 * 60 * 24 * 30)
        with (t0 + 1000 * 60 * 60 * 24 * 50) by lia.
      reflexivity.
    + apply validate_expired
        with (u := u)
             (s := mkSession (id s) (userId s) (t0 + 1000 * 60 * 60 * 24 * 50))
             (rest := map (fun r => (fst r,
                                     renewed (t0 + 1000 * 60 * 60 * 24 * 50)
                                             (id s) (snd r))) rest).
      * cbn [sessionTable userTable set_sessionTable set_reads].
        rewrite rows_of_updated, E. cbn [map fst snd].
        now rewrite renewed_self.
      * cbn [clock reads expiresAt set_sessionTable set_reads].
        rewrite ?Hr, ?Hck, T4. unfold days. lia.
    + cbn [sessionTable set_sessionTable set_reads id].
      intros s' Hs'. now apply delete_by_id_In in Hs'.
Qed.

Lemma stands_at t w (n : nat) :
  clock_stands_at t w -> (reads w <= n)%nat -> clock w n = t.
Proof.
  intros H Hn. specialize (H (n - reads w)%nat).
  now replace (reads w + (n - reads w))%nat with n in H by lia.
Qed.

(** ** Validity *)

(** C5.  With unique session identifiers, [validateSessionToken] returns
    a session and a user if and only if the session table holds a record
    whose identifier is the hash of the token, whose expiry lies after the
    clock reading of the call, and whose [userId] is the identifier of a
    row of the user table; what it returns is such a record (possibly
    renewed) with a user row it belongs to; and for a record without a user
    row the result is "no session", whatever its expiry, with the world
    untouched. *)
Theorem valid_iff_present_unexpired_owned token w :
  NoDup (map id (sessionTable w)) ->
  ((exists s u w', validateSessionToken token w = Ok (Valid s u) w') <->
   (exists s0, In s0 (sessionTable w) /\ id s0 = sessionIdOf token /\
               clock w (reads w) < expiresAt s0 /\
               exists u, In u (userTable w) /\ user_id u = userId s0)) /\
  (forall s u w', validateSessionToken token w = Ok (Valid s u) w' ->
                  id s = sessionIdOf token /\ In u (userTable w) /\
                  user_id u = userId s /\
                  exists s0, In s0 (sessionTable w) /\ id s0 = id s /\
                             userId s0 = userId s) /\
  (forall s0, In s0 (sessionTable w) -> id s0 = sessionIdOf token ->
              (forall u, In u (userTable w) -> user_id u <> userId s0) ->
              validateSessionToken token w = Ok NoSession w).
Proof.
  intros Hnd. split; [split|split].
  - intros (s & u & w' & Hv).
    destruct (validate_cases token w)
      as [[_ H] | [(u0 & s0 & rest & E & _ & H)
               | [(u0 & s0 & rest & E & Hl & _ & H)
                 | (u0 & s0 & rest & E & Hl & _ & H)]]];
      rewrite H in Hv; try discriminate;
      assert (Hin : In (u0, s0)
                       (rows_of (sessionIdOf token) (sessionTable w) (userTable w)))
        by (rewrite E; now left);
      apply rows_of_In in Hin; destruct Hin as (Hs & Hu & Hid & Hm);
      exists s0; repeat split; try assumption; exists u0; auto.
  - intros (s0 & Hin & Hid & Hl & Hown).
    destruct (rows_of_stored _ (userTable w) _ Hnd Hin Hown) as (u & rest & E & _).
    rewrite Hid in E.
    destruct (Z_lt_le_dec (clock w (S (reads w))) (expiresAt s0 - days 15)).
    + do 3 eexists. apply validate_keep with (rest := rest); eassumption.
    + do 3 eexists. apply validate_renew with (rest := rest); eassumption.
  - intros s u w' Hv.
    destruct (validate_cases token w)
      as [[_ H] | [(u0 & s0 & rest & E & _ & H)
               | [(u0 & s0 & rest & E & Hl & _ & H)
                 | (u0 & s0 & rest & E & Hl & _ & H)]]];
      rewrite H in Hv; try discriminate;
      assert (Hin : In (u0, s0)
                       (rows_of (sessionIdOf token) (sessionTable w) (userTable w)))
        by (rewrite E; now left);
      apply rows_of_In in Hin; destruct Hin as (Hs & Hu & Hid & Hm);
      inversion Hv; subst; cbn [id userId];
      (repeat split; [assumption | assumption | now symmetry |]);
      eexists; (split; [eassumption | split; reflexivity]).
  - intros s0 Hin Hid Hnone. apply validate_absent. rewrite <- Hid.
    now apply rows_of_orphan.
Qed.

(** C10.  A session that [validateSessionToken] returns comes from a
    stored record that had not expired at the first clock reading of the
    call.  It is that record itself when the second reading is more than
    fifteen days before its expiry (outside the renewal window, where
    [expiresAt > now + 15 days] holds already), and that record with
    [expiresAt = now + 30 days], [now] the third reading, when it is not
    (inside the window).  If the clock did not run backwards, its expiry is
    strictly more than fifteen days after every clock reading of the call.
    And for every stored session not yet expired (in a database that keeps
    the schema's constraints), with the clock standing at [t], a session is
    returned: the stored one outside the window, the one with
    [expiresAt = t + 30 days] inside it, with more than fifteen days left in
    both cases. *)
Theorem returned_session_outlives_15_days :
  (forall token w s u w',
      validateSessionToken token w = Ok (Valid s u) w' ->
      exists s0,
        In s0 (sessionTable w) /\ id s0 = sessionIdOf token /\
        clock w (reads w) < expiresAt s0 /\
        ((clock w (S (reads w)) < expiresAt s0 - days 15 /\ s = s0 /\
          reads w' = S (S (reads w))) \/
         (expiresAt s0 - days 15 <= clock w (S (reads w)) /\
          s = mkSession (id s0) (userId s0)
                        (clock w (S (S (reads w))) + days 30) /\
          reads w' = S (S (S (reads w))))) /\
        (clock_monotone w ->
         forall k : nat, (reads w <= k < reads w')%nat ->
                         clock w k + days 15 < expiresAt s)) /\
  (forall token w s0 t,
      wf_db w -> In s0 (sessionTable w) -> id s0 = sessionIdOf token ->
      clock_stands_at t w -> t < expiresAt s0 ->
      exists s u w',
        validateSessionToken token w = Ok (Valid s u) w' /\
        t + days 15 < expiresAt s /\
        (t < expiresAt s0 - days 15 -> s = s0) /\
        (expiresAt s0 - days 15 <= t ->
         s = mkSession (id s0) (userId s0) (t + days 30))).
Proof.
  split.
  - intros token w s u w' Hv.
    destruct (validate_cases token w)
      as [[_ H] | [(u0 & s0 & rest & E & _ & H)
               | [(u0 & s0 & rest & E & Hl & Hw & H)
                 | (u0 & s0 & rest & E & Hl & Hw & H)]]];
      rewrite H in Hv; try discriminate;
      assert (Hin : In (u0, s0)
                       (rows_of (sessionIdOf token) (sessionTable w) (userTable w)))
        by (rewrite E; now left);
      apply rows_of_In in Hin; destruct Hin as (Hs & _ & Hid & _);
      inversion Hv; subst s u w'; exists s0;
      cbn [reads set_sessionTable set_reads expiresAt];
      (split; [exact Hs|]); (split; [exact Hid|]); (split; [exact Hl|]).
    + split; [right; repeat split; assumption|].
      intros Hmono k [Hk1 Hk2].
      assert (clock w k <= clock w (S (S (reads w)))) by (apply Hmono; lia).
      unfold days. lia.
    + split; [left; repeat split; assumption|].
      intros Hmono k [Hk1 Hk2].
      assert (clock w k <= clock w (S (reads w))) by (apply Hmono; lia).
      unfold days in *. lia.
  - intros token w s0 t [Hnd Hfk] Hin Hid Ht Hlive.
    destruct (rows_of_stored _ (userTable w) _ Hnd Hin (Hfk s0 Hin))
      as (u & rest & E & _).
    rewrite Hid in E.
    pose proof (stands_now _ _ Ht) as H0.
    pose proof (stands_1 _ _ Ht) as H1.
    pose proof (stands_2 _ _ Ht) as H2.
    destruct (Z_lt_le_dec t (expiresAt s0 - days 15)) as [Hout | Hwin].
    + exists s0, u. eexists.
      split; [apply validate_keep with (rest := rest); [exact E | lia | lia]|].
      split; [unfold days in *; lia|].
      split; [reflexivity | intros Hc; unfold days in *; lia].
    + exists (mkSession (id s0) (userId s0) (t + days 30)), u. eexists.
      split.
      * rewrite <- H2 at 1.
        apply validate_renew with (rest := rest); [exact E | lia | lia].
      * cbn [expiresAt].
        split; [unfold days; lia|].
        split; [intros Hc; unfold days in *; lia | reflexivity].
Qed.

(** ** Renewal *)

Lemma update_expiresAt_twice e1 e2 sid ss :
  update_expiresAt e2 sid (update_expiresAt e1 sid ss) =
  update_expiresAt e2 sid ss.
Proof.
  rewrite !update_expiresAt_map, map_map. apply map_ext. intros s.
  unfold renewed. destruct (String.eqb (id s) sid) eqn:E; cbn [id userId].
  - now rewrite E.
  - now rewrite E.
Qed.

(** C9.  The renewal inside [validateSessionToken] writes the validation
    time plus thirty days, whatever the previous expiry of the session
    was; the write is idempotent and a later write replaces an earlier
    one; and validating twice while the clock stands still returns what
    validating once returns and leaves the session table as one
    validation leaves it. *)
Theorem renewal_idempotent :
  (forall token w u s rest t,
      rows_of (sessionIdOf token) (sessionTable w) (userTable w)
      = (u, s) :: rest ->
      clock_stands_at t w ->
      expiresAt s - days 15 <= t < expiresAt s ->
      exists w',
        validateSessionToken token w =
        Ok (Valid (mkSession (id s) (userId s) (t + days 30)) u) w' /\
        sessionTable w' =
        update_expiresAt (t + days 30) (id s) (sessionTable w)) /\
  (forall e sid ss,
      update_expiresAt e sid (update_expiresAt e sid ss) =
      update_expiresAt e sid ss) /\
  (forall e1 e2 sid ss,
      update_expiresAt e2 sid (update_expiresAt e1 sid ss) =
      update_expiresAt e2 sid ss) /\
  (forall token w t r1 w1,
      clock_stands_at t w ->
      validateSessionToken token w = Ok r1 w1 ->
      exists w2,
        validateSessionToken token w1 = Ok r1 w2 /\
        sessionTable w2 = sessionTable w1).
Proof.
  split; [|split; [|split]].
  - intros token w u s rest t E Ht [Hlo Hhi]. eexists. split.
    + rewrite <- (stands_2 _ _ Ht) at 1.
      apply validate_renew with (rest := rest); [exact E | |].
      * rewrite (stands_now _ _ Ht). lia.
      * rewrite (stands_1 _ _ Ht). lia.
    + cbn [sessionTable set_sessionTable set_reads].
      now rewrite (stands_2 _ _ Ht).
  - intros. apply update_expiresAt_twice.
  - intros. apply update_expiresAt_twice.
  - intros token w t r1 w1 Ht Hv.
    destruct (validate_cases token w)
      as [[E H] | [(u0 & s0 & rest & E & Hx & H)
               | [(u0 & s0 & rest & E & Hl & Hw & H)
                 | (u0 & s0 & rest & E & Hl & Hw & H)]]];
      rewrite H in Hv; inversion Hv; subst r1 w1; clear Hv.
    + exists w. split; [assumption | reflexivity].
    + eexists. split; [|reflexivity]. apply validate_absent.
      cbn [sessionTable userTable set_sessionTable set_reads].
      assert (Hin : In (u0, s0)
                       (rows_of (sessionIdOf token) (sessionTable w) (userTable w)))
        by (rewrite E; now left).
      apply rows_of_In in Hin. destruct Hin as (_ & _ & Hid & _).
      rewrite <- Hid. apply rows_of_deleted.
    + eexists. split.
      * apply validate_keep
          with (rest := map (fun r =>
                               (fst r,
                                renewed (clock w (S (S (reads w))) + days 30)
                                        (id s0) (snd r))) rest).
        -- cbn [sessionTable userTable set_sessionTable set_reads].
           rewrite rows_of_updated, E. cbn [map fst snd].
           now rewrite renewed_self.
        -- cbn [clock reads expiresAt set_sessionTable set_reads].
           rewrite !(stands_at t w) by (assumption || lia). unfold days. lia.
        -- cbn [clock reads expiresAt set_sessionTable set_reads].
           rewrite !(stands_at t w) by (assumption || lia). unfold days. lia.
      * reflexivity.
    + eexists. split.
      * apply validate_keep with (rest := rest).
        -- exact E.
        -- cbn [clock reads set_reads].
           rewrite (stands_at t w) by (assumption || lia).
           rewrite (stands_now _ _ Ht) in Hl. exact Hl.
        -- cbn [clock reads set_reads].
           rewrite (stands_at t w) by (assumption || lia).
           rewrite (stands_1 _ _ Ht) in Hw. exact Hw.
      * reflexivity.
Qed.

(** ** Invalidation *)

Lemma delete_by_userId_In uid ss s :
  In s (delete_by_userId uid ss) <-> In s ss /\ userId s <> uid.
Proof.
  unfold delete_by_userId. rewrite filter_In, negb_true_iff, Z.eqb_neq.
  reflexivity.
Qed.

Lemma filter_filter_sub {A} (f g : A -> bool) (l : list A) :
  (forall x, f x = true -> g x = true) ->
  filter f (filter g l) = filter f l.
Proof.
  intros H. induction l as [|a l IH]; [reflexivity|]. cbn [filter].
  destruct (g a) eqn:G; cbn [filter].
  - now rewrite IH.
  - destruct (f a) eqn:F; [|exact IH]. rewrite (H a F) in G. discriminate.
Qed.

(** C7.  [invalidateAllSessions(userId)] returns without throwing and
    leaves exactly the sessions of the other users, each as it was and in
    the order it was, and the user table as it was; [invalidateSession] and
    [invalidateAllSessions] leave the whole world as it is when no record
    matches; and each of them, done a second time, changes nothing. *)
Theorem invalidate_frame :
  (forall uid w,
      exists w',
        invalidateAllSessions uid w = Ok tt w' /\
        (forall s, In s (sessionTable w') <->
                   In s (sessionTable w) /\ userId s <> uid) /\
        (forall v, v <> uid ->
                   filter (fun s => userId s =? v) (sessionTable w') =
                   filter (fun s => userId s =? v) (sessionTable w)) /\
        userTable w' = userTable w) /\
  (forall sid w,
      (forall s, In s (sessionTable w) -> id s <> sid) ->
      invalidateSession sid w = Ok tt w) /\
  (forall uid w,
      (forall s, In s (sessionTable w) -> userId s <> uid) ->
      invalidateAllSessions uid w = Ok tt w) /\
  (forall sid w,
      exists w', invalidateSession sid w = Ok tt w' /\
                 invalidateSession sid w' = Ok tt w') /\
  (forall uid w,
      exists w', invalidateAllSessions uid w = Ok tt w' /\
                 invalidateAllSessions uid w' = Ok tt w').
Proof.
  assert (Hnop1 : forall sid w,
             (forall s, In s (sessionTable w) -> id s <> sid) ->
             invalidateSession sid w = Ok tt w).
  { intros sid w H. unfold invalidateSession, db_delete_session_by_id, delete_by_id.
    rewrite filter_all, set_sessionTable_same; [reflexivity|].
    intros s Hs. apply negb_true_iff, String.eqb_neq. now apply H. }
  assert (Hnop2 : forall uid w,
             (forall s, In s (sessionTable w) -> userId s <> uid) ->
             invalidateAllSessions uid w = Ok tt w).
  { intros uid w H.
    unfold invalidateAllSessions, db_delete_session_by_userId, delete_by_userId.
    rewrite filter_all, set_sessionTable_same; [reflexivity|].
    intros s Hs. apply negb_true_iff, Z.eqb_neq. now apply H. }
  split; [|split; [exact Hnop1 | split; [exact Hnop2 | split]]].
  - intros uid w. eexists. split; [reflexivity|].
    cbn [sessionTable userTable set_sessionTable].
    split; [|split; [|reflexivity]].
    + intros s. apply delete_by_userId_In.
    + intros v Hv. unfold delete_by_userId. apply filter_filter_sub.
      intros s E. apply Z.eqb_eq in E. apply negb_true_iff, Z.eqb_neq. congruence.
  - intros sid w. eexists. split; [reflexivity|]. apply Hnop1.
    cbn [sessionTable set_sessionTable]. intros s Hs.
    now apply delete_by_id_In in Hs.
  - intros uid w. eexists. split; [reflexivity|]. apply Hnop2.
    cbn [sessionTable set_sessionTable]. intros s Hs.
    now apply delete_by_userId_In in Hs.
Qed.

(** ** The login route *)

Lemma cookie_get_set_same c store :
  cookie_get (c_name c) (cookie_set c store) = Some c.
Proof.
  unfold cookie_get. induction store as [|d store IH]; cbn [cookie_set find].
  - now rewrite String.eqb_refl.
  - destruct (String.eqb (c_name d) (c_name c)) eqn:E; cbn [find].
    + now rewrite String.eqb_refl.
    + now rewrite E.
Qed.

Lemma cookie_get_set_other name c store :
  name <> c_name c ->
  cookie_get name (cookie_set c store) = cookie_get name store.
Proof.
  intros Hne. unfold cookie_get.
  assert (Hc : String.eqb (c_name c) name = false)
    by (apply String.eqb_neq; congruence).
  induction store as [|d store IH]; cbn [cookie_set find].
  - now rewrite Hc.
  - destruct (String.eqb (c_name d) (c_name c)) eqn:E; cbn [find].
    + apply String.eqb_eq in E. rewrite E, Hc. reflexivity.
    + destruct (String.eqb (c_name d) name); [reflexivity | exact IH].
Qed.

Lemma searchParams_get_set name value ps :
  searchParams_get name (searchParams_set name value ps) = Some value.
Proof.
  unfold searchParams_get.
  induction ps as [|p ps IH]; cbn [searchParams_set find fst].
  - now rewrite String.eqb_refl.
  - destruct (String.eqb (fst p) name) eqn:E; cbn [find fst].
    + now rewrite String.eqb_refl.
    + now rewrite E.
Qed.

Lemma searchParams_set_others name value ps k v :
  k <> name ->
  (In (k, v) (searchParams_set name value ps) <-> In (k, v) ps).
Proof.
  intros Hk. induction ps as [|p ps IH]; cbn [searchParams_set In].
  - split; [intros [E|[]]; inversion E; congruence | intros []].
  - destruct (String.eqb_spec (fst p) name) as [E|E]; cbn [In].
    + unfold searchParams_remove. rewrite filter_In. cbn [fst].
      split.
      * intros [H|[H _]]; [inversion H; congruence | now right].
      * intros [H|H]; [subst p; cbn in E; congruence|].
        right. split; [assumption|]. now apply negb_true_iff, String.eqb_neq.
    + now rewrite IH.
Qed.

Lemma searchParams_set_once name value ps :
  List.length (filter (fun p => String.eqb (fst p) name)
                      (searchParams_set name value ps)) = 1%nat.
Proof.
  induction ps as [|p ps IH]; cbn [searchParams_set filter fst].
  - now rewrite String.eqb_refl.
  - destruct (String.eqb (fst p) name) eqn:E; cbn [filter fst].
    + rewrite String.eqb_refl. cbn [List.length]. f_equal.
      unfold searchParams_remove. rewrite filter_none; [reflexivity|].
      intros x Hx. apply filter_In in Hx. destruct Hx as [_ Hx].
      now apply negb_true_iff in Hx.
    + now rewrite E.
Qed.

(** C8.  [GET] returns a response of status 302 whose only header is
    [Location], holding the serialised authorization URL that the provider
    client builds from the two strings just generated and the scopes
    [openid] and [profile], with its [prompt] parameter set, once, to
    [select_account] and its other parameters kept; the state and the code
    verifier are left in the cookies [google_oauth_state] and
    [google_code_verifier], both HTTP-only, same-site lax, of path [/], of
    maximum age 600 seconds and without an expiry date, and secure exactly
    when [NODE_ENV] is [production]. *)
Theorem GET_redirects_to_provider w :
  let state := entropy w (draws w) in
  let codeVerifier := entropy w (S (draws w)) in
  let url := createAuthorizationURL state codeVerifier ["openid"; "profile"] in
  let params := searchParams_set "prompt" "select_account" (url_searchParams url) in
  let secure := String.eqb (NODE_ENV w) "production" in
  exists w',
    GET w = Ok (mkResponse 302 [("Location",
                                 URL_toString (mkURL (url_base url) params))]) w' /\
    searchParams_get "prompt" params = Some "select_account" /\
    List.length (filter (fun p => String.eqb (fst p) "prompt") params) = 1%nat /\
    (forall k v, k <> "prompt" ->
                 (In (k, v) params <-> In (k, v) (url_searchParams url))) /\
    cookie_get "google_oauth_state" (cookieStore w') =
    Some (mkCookie "google_oauth_state" state "/" true secure Lax
                   (Some 600) None) /\
    cookie_get "google_code_verifier" (cookieStore w') =
    Some (mkCookie "google_code_verifier" codeVerifier "/" true secure Lax
                   (Some 600) None) /\
    (secure = true <-> NODE_ENV w = "production") /\
    draws w' = S (S (draws w)) /\
    sessionTable w' = sessionTable w.
Proof.
  intros state codeVerifier url params secure.
  eexists. split.
  { unfold GET, bind, generateState, generateCodeVerifier, draw, env_NODE_ENV,
      cookies_set, ret.
    cbn [entropy draws NODE_ENV cookieStore set_draws set_cookieStore].
    reflexivity. }
  cbn [cookieStore draws sessionTable set_cookieStore set_draws NODE_ENV].
  split; [apply searchParams_get_set|].
  split; [apply searchParams_set_once|].
  split; [intros k v Hk; now apply searchParams_set_others|].
  split; [|split; [|split; [apply String.eqb_eq | split; reflexivity]]].
  - rewrite cookie_get_set_other by (cbn; discriminate).
    apply (cookie_get_set_same
             (mkCookie "google_oauth_state" state "/" true secure Lax
                       (Some (60 * 10)) None)).
  - apply (cookie_get_set_same
             (mkCookie "google_code_verifier" codeVerifier "/" true secure Lax
                       (Some (60 * 10)) None)).
Qed.

(** ** What the operations leave in the tables *)

(** What [validateSessionToken] leaves alone, and what it can leave in
    the session table. *)
Lemma validate_frame token w :
  exists r w1,
    validateSessionToken token w = Ok r w1 /\
    userTable w1 = userTable w /\ clock w1 = clock w /\
    cacheStore w1 = cacheStore w /\ scopeTags w1 = scopeTags w /\
    scopeLife w1 = scopeLife w /\ cookieStore w1 = cookieStore w /\
    (forall s, In s (sessionTable w1) -> In (id s) (map id (sessionTable w))).
Proof.
  destruct (validate_cases token w)
    as [[_ H] | [(u0 & s0 & rest & _ & _ & H)
             | [(u0 & s0 & rest & _ & _ & _ & H)
               | (u0 & s0 & rest & _ & _ & _ & H)]]];
    rewrite H; do 2 eexists; (split; [reflexivity|]);
    cbn [sessionTable userTable clock cacheStore scopeTags scopeLife
         cookieStore set_sessionTable set_reads];
    repeat (split; [reflexivity|]); intros s Hs.
  - now apply in_map.
  - apply delete_by_id_In in Hs. apply in_map. exact (proj1 Hs).
  - rewrite <- (update_expiresAt_ids
                  (clock w (S (S (reads w))) + days 30) (id s0)).
    now apply in_map.
  - now apply in_map.
Qed.

Lemma valid_result_id token w s u w1 :
  validateSessionToken token w = Ok (Valid s u) w1 ->
  id s = sessionIdOf token.
Proof.
  intros Hv.
  destruct (validate_cases token w)
    as [[_ H] | [(u0 & s0 & rest & E & _ & H)
             | [(u0 & s0 & rest & E & _ & _ & H)
               | (u0 & s0 & rest & E & _ & _ & H)]]];
    rewrite H in Hv; try discriminate;
    assert (Hin : In (u0, s0)
                     (rows_of (sessionIdOf token) (sessionTable w) (userTable w)))
      by (rewrite E; now left);
    apply rows_of_In in Hin; destruct Hin as (_ & _ & Hid & _);
    inversion Hv; subst; exact Hid.
Qed.

(** The expiry of a returned session, against the last clock reading of
    the call: no assumption on the clock. *)
Lemma valid_outlives_last_reading token w s u w1 :
  validateSessionToken token w = Ok (Valid s u) w1 ->
  (reads w < reads w1)%nat /\ clock w1 = clock w /\
  clock w (Nat.pred (reads w1)) + days 15 < expiresAt s.
Proof.
  intros Hv.
  destruct (validate_cases token w)
    as [[_ H] | [(u0 & s0 & rest & E & _ & H)
             | [(u0 & s0 & rest & E & Hl & Hw & H)
               | (u0 & s0 & rest & E & Hl & Hw & H)]]];
    rewrite H in Hv; try discriminate; inversion Hv; subst;
    cbn [reads clock set_sessionTable set_reads expiresAt Nat.pred];
    (split; [lia|]); (split; [reflexivity|]); unfold days in *; lia.
Qed.

Lemma createSession_throw token uid w e w1 :
  createSession token uid w = Throw e w1 ->
  sessionTable w1 = sessionTable w /\ userTable w1 = userTable w.
Proof.
  unfold createSession, bind, Date_now, db_insert_session, ret.
  cbn [sessionTable userTable set_reads id userId].
  destruct (has_session_id _ (sessionTable w)).
  - intros H. inversion H. split; reflexivity.
  - destruct (has_user_id uid (userTable w)); cbn [negb]; [discriminate|].
    intros H. inversion H. split; reflexivity.
Qed.

(** The body of the cached lookup, after the validation it starts with. *)
Lemma body_no_token w :
  getCurrentSessionCached_body None w = Ok NoSession w.
Proof. reflexivity. Qed.

Lemma body_no_session token w w1 :
  validateSessionToken token w = Ok NoSession w1 ->
  getCurrentSessionCached_body (Some token) w = Ok NoSession w1.
Proof.
  intros H. unfold getCurrentSessionCached_body, bind. now rewrite H.
Qed.

Lemma body_valid token w s u w1 :
  validateSessionToken token w = Ok (Valid s u) w1 ->
  exists w2,
    getCurrentSessionCached_body (Some token) w = Ok (Valid s u) w2 /\
    sessionTable w2 = sessionTable w1 /\ userTable w2 = userTable w1 /\
    clock w2 = clock w1 /\ reads w2 = S (reads w1) /\
    cacheStore w2 = cacheStore w1 /\
    scopeTags w2 = scopeTags w1 ++ [("session:" ++ id s)%string] /\
    scopeLife w2 =
    Some (mkCacheLife 0
            (Z.max 0 ((expiresAt s - clock w1 (reads w1)) / 1000))
            (Z.max 0 ((expiresAt s - clock w1 (reads w1)) / 1000))).
Proof.
  intros H. unfold getCurrentSessionCached_body, bind. rewrite H.
  eexists. split; [reflexivity|].
  cbn [sessionTable userTable clock reads cacheStore scopeTags scopeLife
       set_cache set_reads].
  repeat split; reflexivity.
Qed.

Lemma body_frame key w :
  exists r w2,
    getCurrentSessionCached_body key w = Ok r w2 /\
    userTable w2 = userTable w /\
    (forall s, In s (sessionTable w2) -> In (id s) (map id (sessionTable w))).
Proof.
  destruct key as [token|].
  - destruct (validate_frame token w) as (r & w1 & Hv & Hu & _ & _ & _ & _ & _ & Hs).
    destruct r as [s u|].
    + destruct (body_valid _ _ _ _ _ Hv) as (w2 & Hb & Ht & Hu2 & _).
      exists (Valid s u), w2. rewrite Ht, Hu2. auto.
    + exists NoSession, w1. split; [now apply body_no_session | auto].
  - exists NoSession, w. split; [reflexivity|]. split; [reflexivity|].
    intros s Hs. now apply in_map.
Qed.

Lemma cached_frame key w :
  exists r w',
    getCurrentSessionCached key w = Ok r w' /\
    userTable w' = userTable w /\
    (forall s, In s (sessionTable w') -> In (id s) (map id (sessionTable w))).
Proof.
  unfold getCurrentSessionCached, use_cache.
  destruct (find _ (cacheStore w)) as [e|].
  - exists (ce_value e), w. split; [reflexivity|]. split; [reflexivity|].
    intros s Hs. now apply in_map.
  - destruct (body_frame key (set_cache (cacheStore w) [] None w))
      as (r & w2 & Hb & Hu & Hs).
    rewrite Hb. do 2 eexists. split; [reflexivity|].
    cbn [sessionTable userTable set_cache] in *. auto.
Qed.

Lemma run_op_frame o w :
  userTable (run_op o w) = userTable w /\
  forall s, In s (sessionTable (run_op o w)) ->
            In (id s) (map id (sessionTable w)) \/
            exists token, In token (created_tokens [o]) /\
                          id s = sessionIdOf token.
Proof.
  destruct o as [token uid | token | sid | uid | token e | |]; cbn [run_op].
  - destruct (createSession token uid w) as [s0 w1 | e w1] eqn:E;
      cbn [world_after].
    + destruct (createSession_ok _ _ _ _ _ E) as (Hs & Hw & _ & _).
      split; [now rewrite Hw|]. intros s Hin. rewrite Hw in Hin.
      cbn [sessionTable set_sessionTable] in Hin.
      apply in_app_or in Hin. destruct Hin as [Hin | [<-|[]]].
      * left. now apply in_map.
      * right. exists token. split; [now left | now rewrite Hs].
    + destruct (createSession_throw _ _ _ _ _ E) as [Ht Hu].
      split; [assumption|]. intros s Hin. left. rewrite Ht in Hin.
      now apply in_map.
  - destruct (validate_frame token w) as (r & w1 & Hv & Hu & _ & _ & _ & _ & _ & Hs).
    rewrite Hv. cbn [world_after]. split; [assumption | auto].
  - cbn. split; [reflexivity|]. intros s Hin. left.
    apply delete_by_id_In in Hin. apply in_map. exact (proj1 Hin).
  - cbn. split; [reflexivity|]. intros s Hin. left.
    apply delete_by_userId_In in Hin. apply in_map. exact (proj1 Hin).
  - cbn. split; [reflexivity|]. intros s Hin. left. now apply in_map.
  - cbn. split; [reflexivity|]. intros s Hin. left. now apply in_map.
  - unfold getCurrentSession, bind, cookies_get.
    destruct (cached_frame (option_map c_value
                                       (cookie_get "session" (cookieStore w))) w)
      as (r & w' & Hc & Hu & Hs).
    rewrite Hc. cbn [world_after]. split; [assumption | auto].
Qed.

Lemma run_ops_frame ops : forall w,
  userTable (run_ops ops w) = userTable w /\
  forall s, In s (sessionTable (run_ops ops w)) ->
            In (id s) (map id (sessionTable w)) \/
            exists token, In token (created_tokens ops) /\
                          id s = sessionIdOf token.
Proof.
  induction ops as [|o ops IH]; intros w.
  - split; [reflexivity|]. intros s Hs. left. now apply in_map.
  - change (run_ops (o :: ops) w) with (run_ops ops (run_op o w)).
    destruct (IH (run_op o w)) as [Hu Hs].
    destruct (run_op_frame o w) as [Hu1 Hs1].
    split; [congruence|]. intros s Hin.
    change (created_tokens (o :: ops))
      with ((match o with OpCreateSession t _ => [t] | _ => [] end)
              ++ created_tokens ops).
    destruct (Hs s Hin) as [Hold | (token & Ht & Hid)].
    + apply in_map_iff in Hold. destruct Hold as (s1 & Hid1 & Hin1).
      destruct (Hs1 s1 Hin1) as [Hold | (token & Ht & Hid)].
      * left. now rewrite <- Hid1.
      * right. exists token. split; [|congruence].
        apply in_or_app. left. unfold created_tokens in Ht. cbn in Ht.
        now rewrite app_nil_r in Ht.
    + right. exists token. split; [|assumption]. apply in_or_app. now right.
Qed.

(** C4.  The session table only ever receives hashes of tokens:
    [createSession] appends one record whose identifier is the hex-encoded
    SHA-256 of the token, and tokens of equal hash are interchangeable for
    it; [validateSessionToken] does the same on tokens of equal hash and
    only ever returns a session whose identifier is the hash of its token;
    and after any sequence of session-manager operations every identifier
    in the session table was there before or is the hash of a token given
    to [createSession], while the user table is as it was. *)
Theorem raw_token_never_persisted :
  (forall token uid w s w',
      createSession token uid w = Ok s w' ->
      id s = encodeHexLowerCase (sha256 (TextEncoder_encode token)) /\
      sessionTable w' = sessionTable w ++ [s] /\
      userTable w' = userTable w) /\
  (forall t1 t2 uid w,
      sessionIdOf t1 = sessionIdOf t2 ->
      createSession t1 uid w = createSession t2 uid w) /\
  (forall t1 t2 w,
      sessionIdOf t1 = sessionIdOf t2 ->
      validateSessionToken t1 w = validateSessionToken t2 w) /\
  (forall token w s u w',
      validateSessionToken token w = Ok (Valid s u) w' ->
      id s = sessionIdOf token) /\
  (forall ops w s,
      In s (sessionTable (run_ops ops w)) ->
      In (id s) (map id (sessionTable w)) \/
      exists token, In token (created_tokens ops) /\
                    id s = sessionIdOf token) /\
  (forall ops w, userTable (run_ops ops w) = userTable w).
Proof.
  split; [|split; [|split; [|split; [|split]]]].
  - intros token uid w s w' H.
    destruct (createSession_ok _ _ _ _ _ H) as (Hs & Hw & _ & _).
    split; [now rewrite Hs|]. rewrite Hw. split; reflexivity.
  - intros t1 t2 uid w H. unfold createSession.
    fold (sessionIdOf t1). fold (sessionIdOf t2). now rewrite H.
  - intros t1 t2 w H. unfold validateSessionToken.
    fold (sessionIdOf t1). fold (sessionIdOf t2). now rewrite H.
  - exact valid_result_id.
  - intros ops w. apply run_ops_frame.
  - intros ops w. apply run_ops_frame.
Qed.

(** ** The cached lookup *)

Lemma key_eqb_refl key : key_eqb key key = true.
Proof. destruct key; cbn; [apply String.eqb_refl | reflexivity]. Qed.

Lemma find_app_miss {A} (f : A -> bool) (l : list A) (e : A) :
  find f l = None -> f e = true -> find f (l ++ [e]) = Some e.
Proof.
  intros Hl He. induction l as [|a l IH]; cbn [app find] in *.
  - now rewrite He.
  - destruct (f a); [discriminate | now apply IH].
Qed.

Lemma use_cache_hit key body w e :
  find (fun e => key_eqb (ce_key e) key) (cacheStore w) = Some e ->
  use_cache key body w = Ok (ce_value e) w.
Proof. intros H. unfold use_cache. now rewrite H. Qed.

Lemma remaining_le (e now : Z) :
  now <= e -> now + 1000 * Z.max 0 ((e - now) / 1000) <= e.
Proof.
  intros H. pose proof (Z.mul_div_le (e - now) 1000 ltac:(lia)).
  pose proof (Z.div_pos (e - now) 1000 ltac:(lia) ltac:(lia)). lia.
Qed.

(** C6, as the code has it.  [getCurrentSession] hands the value of the
    [session] cookie (or null) to the cached lookup.  On a miss the lookup
    stores what it returns under its argument, "no session" included, and
    serves it from there afterwards.  An entry holding a session carries
    the one tag [session:<id>] and the lifetime [stale 0], [revalidate] and
    [expire] both [max(0, floor((expiresAt - now) / 1000))], which ends no
    later than the session whenever [now] is not past the expiry, as is the
    case when the clock stands still.  An entry holding "no session"
    carries no tag and declares no lifetime. *)
Theorem cached_lookup_entry :
  (forall w,
      getCurrentSession w =
      getCurrentSessionCached
        (option_map c_value (cookie_get "session" (cookieStore w))) w) /\
  (forall key w,
      find (fun e => key_eqb (ce_key e) key) (cacheStore w) = None ->
      exists r w' tags life,
        getCurrentSessionCached key w = Ok r w' /\
        cacheStore w' = cacheStore w ++ [mkCacheEntry key r tags life] /\
        getCurrentSessionCached key w' = Ok r w' /\
        match r with
        | NoSession => tags = [] /\ life = None
        | Valid s u =>
            let now := clock w (Nat.pred (reads w')) in
            let remainingTime := Z.max 0 ((expiresAt s - now) / 1000) in
            tags = [("session:" ++ id s)%string] /\
            life = Some (mkCacheLife 0 remainingTime remainingTime) /\
            (now <= expiresAt s ->
             now + 1000 * remainingTime <= expiresAt s) /\
            (forall t, clock_stands_at t w ->
                       now = t /\ t + 1000 * remainingTime <= expiresAt s)
        end).
Proof.
  split; [reflexivity|].
  intros key w Hmiss.
  assert (Hhit : forall r w2 tags life,
             cacheStore w2 = cacheStore w ->
             getCurrentSessionCached key
               (set_cache (cacheStore w2 ++ [mkCacheEntry key r tags life])
                          [] None w2) =
             Ok r (set_cache (cacheStore w2 ++ [mkCacheEntry key r tags life])
                             [] None w2)).
  { intros r w2 tags life Hc. unfold getCurrentSessionCached.
    apply (use_cache_hit key _ _ (mkCacheEntry key r tags life)).
    cbn [cacheStore set_cache]. rewrite Hc.
    apply find_app_miss; [exact Hmiss | apply key_eqb_refl]. }
  unfold getCurrentSessionCached at 1. unfold use_cache. rewrite Hmiss.
  set (w0 := set_cache (cacheStore w) [] None w).
  destruct key as [token|].
  - destruct (validate_frame token w0)
      as (r & w1 & Hv & _ & Hck & Hcs & Hst & Hsl & _ & _).
    destruct r as [s u|].
    + destruct (body_valid _ _ _ _ _ Hv)
        as (w2 & Hb & _ & _ & Hck2 & Hr2 & Hcs2 & Hst2 & Hsl2).
      destruct (valid_outlives_last_reading _ _ _ _ _ Hv) as (Hlt & _ & Hout).
      rewrite Hb.
      assert (Hc : cacheStore w2 = cacheStore w) by (now rewrite Hcs2, Hcs).
      exists (Valid s u). eexists. exists (scopeTags w2), (scopeLife w2).
      split; [reflexivity|]. split; [cbn [cacheStore set_cache]; now rewrite Hc|].
      split; [now apply Hhit|].
      cbn [reads clock set_cache]. rewrite Hr2. cbn [Nat.pred].
      rewrite Hst2, Hst, Hsl2, Hck. cbn [scopeTags clock reads w0 set_cache app].
      split; [reflexivity|]. split; [reflexivity|].
      split; [apply remaining_le|].
      intros t Ht. cbn [reads clock w0 set_cache] in Hlt, Hout.
      assert (Hnow : clock w (reads w1) = t) by (apply stands_at; [assumption | lia]).
      assert (Hprev : clock w (Nat.pred (reads w1)) = t)
        by (apply stands_at; [assumption | lia]).
      split; [exact Hnow|]. rewrite Hnow. apply remaining_le.
      rewrite Hprev in Hout. unfold days in Hout. lia.
    + rewrite (body_no_session _ _ _ Hv).
      exists NoSession. eexists. exists (scopeTags w1), (scopeLife w1).
      split; [reflexivity|]. split; [cbn [cacheStore set_cache]; now rewrite Hcs|].
      split; [now apply Hhit|].
      rewrite Hst, Hsl. split; reflexivity.
  - rewrite body_no_token.
    exists NoSession. eexists. exists (scopeTags w0), (scopeLife w0).
    split; [reflexivity|]. split; [reflexivity|].
    split; [now apply Hhit|]. split; reflexivity.
Qed.

(** ** The schema's constraints are kept by every operation *)

Lemma NoDup_map_filter {A B} (g : A -> B) (f : A -> bool) (l : list A) :
  NoDup (map g l) -> NoDup (map g (filter f l)).
Proof.
  induction l as [|a l IH]; intros H; [exact H|].
  cbn [map] in H. inversion H as [|x l' Hnotin Hnd]; subst x l'.
  cbn [filter]. destruct (f a); [|now apply IH].
  cbn [map]. constructor; [|now apply IH].
  intros Hin. apply Hnotin. apply in_map_iff in Hin.
  destruct Hin as (b & Hb & Hin). apply filter_In in Hin.
  apply in_map_iff. exists b. split; [assumption | exact (proj1 Hin)].
Qed.

Lemma NoDup_snoc {A} (l : list A) (x : A) :
  NoDup l -> ~ In x l -> NoDup (l ++ [x]).
Proof.
  induction l as [|a l IH]; intros Hnd Hx; cbn [app].
  - constructor; [intros [] | constructor].
  - inversion Hnd as [|y l' Hnotin Hnd']; subst y l'. constructor.
    + intros Hin. apply in_app_or in Hin. destruct Hin as [Hin | [E|[]]].
      * now apply Hnotin.
      * apply Hx. left. now symmetry.
    + apply IH; [assumption|]. intros Hin. apply Hx. now right.
Qed.

Lemma wf_table_step w w' :
  wf_db w -> userTable w' = userTable w ->
  table_step (sessionTable w) (sessionTable w') -> wf_db w'.
Proof.
  intros [Hnd Hfk] Hu Hstep. unfold wf_db. rewrite Hu.
  destruct Hstep as [E | [[sid E] | [[uid E] | (e & sid & E)]]]; rewrite E.
  - split; assumption.
  - split; [now apply NoDup_map_filter|].
    intros s Hs. apply delete_by_id_In in Hs. apply Hfk. exact (proj1 Hs).
  - split; [now apply NoDup_map_filter|].
    intros s Hs. apply delete_by_userId_In in Hs. apply Hfk. exact (proj1 Hs).
  - split; [now rewrite update_expiresAt_ids|].
    intros s Hs. rewrite update_expiresAt_map in Hs.
    apply in_map_iff in Hs. destruct Hs as (s0 & <- & Hs0).
    rewrite renewed_userId. now apply Hfk.
Qed.

Lemma validate_table_step token w :
  exists r w1,
    validateSessionToken token w = Ok r w1 /\
    userTable w1 = userTable w /\
    table_step (sessionTable w) (sessionTable w1).
Proof.
  unfold table_step.
  destruct (validate_cases token w)
    as [[_ H] | [(u0 & s0 & rest & _ & _ & H)
             | [(u0 & s0 & rest & _ & _ & _ & H)
               | (u0 & s0 & rest & _ & _ & _ & H)]]];
    rewrite H; do 2 eexists; (split; [reflexivity|]);
    cbn [sessionTable userTable set_sessionTable set_reads];
    (split; [reflexivity|]); eauto 6.
Qed.

Lemma cached_table_step key w :
  exists r w',
    getCurrentSessionCached key w = Ok r w' /\
    userTable w' = userTable w /\
    table_step (sessionTable w) (sessionTable w').
Proof.
  unfold getCurrentSessionCached, use_cache.
  destruct (find _ (cacheStore w)) as [e|].
  - exists (ce_value e), w. split; [reflexivity|]. split; [reflexivity|].
    now left.
  - set (w0 := set_cache (cacheStore w) [] None w).
    destruct key as [token|].
    + destruct (validate_table_step token w0) as (r & w1 & Hv & Hu & Hs).
      destruct r as [s u|].
      * destruct (body_valid _ _ _ _ _ Hv) as (w2 & Hb & Ht & Hu2 & _).
        rewrite Hb. do 2 eexists. split; [reflexivity|].
        cbn [sessionTable userTable set_cache]. rewrite Ht, Hu2. auto.
      * rewrite (body_no_session _ _ _ Hv). do 2 eexists.
        split; [reflexivity|]. cbn [sessionTable userTable set_cache]. auto.
    + rewrite body_no_token. do 2 eexists. split; [reflexivity|].
      split; [reflexivity | now left].
Qed.

(** Every session-manager operation keeps session identifiers unique and
    every session owned. *)
Lemma wf_db_run_op o w : wf_db w -> wf_db (run_op o w).
Proof.
  intros Hwf.
  destruct o as [token uid | token | sid | uid | token e | |]; cbn [run_op].
  - destruct (createSession token uid w) as [s0 w1 | e w1] eqn:E;
      cbn [world_after].
    + destruct (createSession_ok _ _ _ _ _ E) as (Hs & Hw & Hfresh & Huser).
      destruct Hwf as [Hnd Hfk]. rewrite Hw. unfold wf_db.
      cbn [sessionTable userTable set_sessionTable set_reads]. split.
      * rewrite map_app. apply NoDup_snoc; [assumption|].
        intros Hin. apply in_map_iff in Hin. destruct Hin as (s1 & Hid & Hin).
        apply (has_session_id_false _ _ Hfresh s1 Hin).
        rewrite Hid, Hs. reflexivity.
      * intros s Hin. apply in_app_or in Hin.
        destruct Hin as [Hin | [<-|[]]]; [now apply Hfk|].
        apply has_user_id_true in Huser. now rewrite Hs.
    + destruct (createSession_throw _ _ _ _ _ E) as [Ht Hu].
      apply (wf_table_step w); [assumption | assumption | left; assumption].
  - destruct (validate_table_step token w) as (r & w1 & Hv & Hu & Hs).
    rewrite Hv. now apply (wf_table_step w).
  - apply (wf_table_step w); [assumption | reflexivity|].
    right. left. now exists sid.
  - apply (wf_table_step w); [assumption | reflexivity|].
    right. right. left. now exists uid.
  - apply (wf_table_step w); [assumption | reflexivity | now left].
  - apply (wf_table_step w); [assumption | reflexivity | now left].
  - unfold getCurrentSession, bind, cookies_get.
    destruct (cached_table_step
                (option_map c_value (cookie_get "session" (cookieStore w))) w)
      as (r & w' & Hc & Hu & Hs).
    rewrite Hc. now apply (wf_table_step w).
Qed.

Lemma wf_db_run_ops ops : forall w, wf_db w -> wf_db (run_ops ops w).
Proof.
  induction ops as [|o ops IH]; intros w Hwf; [exact Hwf|].
  change (run_ops (o :: ops) w) with (run_ops ops (run_op o w)).
  apply IH. now apply wf_db_run_op.
Qed.

(** * Further properties of the session manager *)

Set Implicit Arguments.

(** ** Further definitions *)

(** [crypto.getRandomValues] on a fresh [Uint8Array(n)]: the bytes of the
    k-th draw from the world's entropy; and
    [encodeBase32LowerCaseNoPadding] of [@oslojs/encoding]. *)
Variable crypto_getRandomValues : nat -> nat -> list Byte.byte.
Variable encodeBase32LowerCaseNoPadding : list Byte.byte -> string.

Definition generateSessionToken : M string :=
  fun w =>
    let bytes := crypto_getRandomValues (draws w) 20 in
    let token := encodeBase32LowerCaseNoPadding bytes in
    Ok token (set_draws (S (draws w)) w).

(** [n] calls of [validateSessionToken(token)] in a row, results dropped. *)
Fixpoint validate_times (token : string) (n : nat) (w : World) : World :=
  match n with
  | O => w
  | S n => validate_times token n (world_after (validateSessionToken token w))
  end.

(** Consecutive clock readings, from now on, are at most fifteen days
    apart. *)
Definition clock_gaps_within_15_days (w : World) : Prop :=
  forall k : nat, (reads w <= k)%nat -> clock w (S k) <= clock w k + days 15.

(** The token has a stored session of the user, in a database that
    keeps the schema's constraints, and the next clock reading is before
    its expiry. *)
Definition live_session (token : string) (uid : Z) (w : World) : Prop :=
  wf_db w /\
  exists s, In s (sessionTable w) /\ id s = sessionIdOf token /\
            userId s = uid /\ clock w (reads w) < expiresAt s.

(** Where a row of the session table after a call comes from: it was
    there, or it is a row that was there with the expiry of a renewal made
    at one of the clock readings [reads w <= k < hi]. *)
Definition row_origin (w : World) (hi : nat) (s' : Session) : Prop :=
  In s' (sessionTable w) \/
  exists s0 k, In s0 (sessionTable w) /\ (reads w <= k < hi)%nat /\
               s' = mkSession (id s0) (userId s0) (clock w k + days 30).

(** The operation can remove or rewrite the row [s]: it names the
    session's token, identifier or user ([getCurrentSession] validates
    whatever token the cookie holds). *)
Definition aimed_at (s : Session) (o : Op) : Prop :=
  match o with
  | OpCreateSession _ _ => False
  | OpValidateSessionToken token => sessionIdOf token = id s
  | OpInvalidateSession sessionId => sessionId = id s
  | OpInvalidateAllSessions userId' => userId' = userId s
  | OpSetSessionTokenCookie _ _ => False
  | OpDeleteSessionTokenCookie => False
  | OpGetCurrentSession => True
  end.

(** No session expires more than thirty days after any clock reading
    still to come. *)
Definition expiry_bounded (w : World) : Prop :=
  forall s k, In s (sessionTable w) -> (reads w <= k)%nat ->
              expiresAt s <= clock w k + days 30.

(** The shape of the stored results of the cached lookup: one entry per
    argument; a stored session sits under a token whose hash is its
    identifier, with the one tag [session:<id>] and a lifetime
    [stale 0, revalidate r, expire r]; a stored "no session" has no tag
    and no lifetime. *)
Definition entry_ok (e : CacheEntry) : Prop :=
  match ce_value e with
  | Valid s _ =>
      (exists token, ce_key e = Some token /\ id s = sessionIdOf token) /\
      ce_tags e = [("session:" ++ id s)%string] /\
      exists r, 0 <= r /\ ce_life e = Some (mkCacheLife 0 r r)
  | NoSession => ce_tags e = [] /\ ce_life e = None
  end.

Definition cache_ok (store : list CacheEntry) : Prop :=
  NoDup (map ce_key store) /\ forall e, In e store -> entry_ok e.

Unset Implicit Arguments.

(** ** What one call does to the world *)

Lemma renewed_cases e sid s :
  renewed e sid s = s \/ renewed e sid s = mkSession (id s) (userId s) e.
Proof. unfold renewed. destruct (String.eqb (id s) sid); auto. Qed.

(** Everything [validateSessionToken] can do. *)
Lemma validate_effect token w :
  exists r w1,
    validateSessionToken token w = Ok r w1 /\
    userTable w1 = userTable w /\ clock w1 = clock w /\
    (reads w <= reads w1 <= reads w + 3)%nat /\
    cacheStore w1 = cacheStore w /\ scopeTags w1 = scopeTags w /\
    scopeLife w1 = scopeLife w /\ cookieStore w1 = cookieStore w /\
    NODE_ENV w1 = NODE_ENV w /\
    (forall s', In s' (sessionTable w1) -> row_origin w (reads w1) s').
Proof.
  unfold row_origin.
  destruct (validate_cases token w)
    as [[_ H] | [(u0 & s0 & rest & _ & _ & H)
             | [(u0 & s0 & rest & _ & _ & _ & H)
               | (u0 & s0 & rest & _ & _ & _ & H)]]];
    rewrite H; do 2 eexists; (split; [reflexivity|]);
    cbn [sessionTable userTable clock reads cacheStore scopeTags scopeLife
         cookieStore NODE_ENV set_sessionTable set_reads];
    repeat (split; [first [reflexivity | lia]|]); intros s' Hs'.
  - now left.
  - left. apply delete_by_id_In in Hs'. exact (proj1 Hs').
  - rewrite update_expiresAt_map in Hs'. apply in_map_iff in Hs'.
    destruct Hs' as (s1 & <- & Hs1).
    destruct (renewed_cases (clock w (S (S (reads w))) + days 30) (id s0) s1)
      as [E|E]; rewrite E.
    + now left.
    + right. exists s1, (S (S (reads w))). repeat split; try assumption; lia.
  - now left.
Qed.

(** Everything the cached lookup can do, cache aside. *)
Lemma cached_effect key w :
  exists r w',
    getCurrentSessionCached key w = Ok r w' /\
    userTable w' = userTable w /\ clock w' = clock w /\
    (reads w <= reads w')%nat /\ cookieStore w' = cookieStore w /\
    (forall s', In s' (sessionTable w') -> row_origin w (reads w') s').
Proof.
  unfold getCurrentSessionCached, use_cache.
  destruct (find _ (cacheStore w)) as [e|].
  - exists (ce_value e), w. split; [reflexivity|].
    repeat (split; [first [reflexivity | lia]|]). intros s' Hs'. now left.
  - set (w0 := set_cache (cacheStore w) [] None w).
    destruct key as [token|].
    + destruct (validate_effect token w0)
        as (r & w1 & Hv & Hu & Hck & Hr & _ & _ & _ & Hco & _ & Ho).
      destruct r as [s u|].
      * destruct (body_valid _ _ _ _ _ Hv)
          as (w2 & Hb & Ht & Hu2 & Hck2 & Hr2 & _).
        rewrite Hb. do 2 eexists. split; [reflexivity|].
        cbn [sessionTable userTable clock reads cookieStore set_cache].
        rewrite Ht, Hu2, Hck2, Hr2.
        split; [exact Hu|]. split; [exact Hck|].
        cbn [reads w0 set_cache] in Hr. split; [lia|].
        unfold getCurrentSessionCached_body, bind in Hb. rewrite Hv in Hb.
        inversion Hb; subst w2.
        cbn [cookieStore set_cache set_reads]. split; [exact Hco|].
        intros s' Hs'. destruct (Ho s' Hs') as [Hin | (s1 & k & Hin & Hk & E)].
        -- now left.
        -- right. exists s1, k. cbn [reads w0 set_cache] in Hk.
           repeat split; try assumption; lia.
      * rewrite (body_no_session _ _ _ Hv). do 2 eexists.
        split; [reflexivity|].
        cbn [sessionTable userTable clock reads cookieStore set_cache].
        split; [exact Hu|]. split; [exact Hck|].
        cbn [reads w0 set_cache] in Hr. split; [lia|]. split; [exact Hco|].
        exact Ho.
    + rewrite body_no_token. do 2 eexists. split; [reflexivity|].
      cbn [sessionTable userTable clock reads cookieStore set_cache w0].
      repeat (split; [first [reflexivity | lia]|]). intros s' Hs'. now left.
Qed.

(** Everything one session-manager operation can do to the tables and
    the clock. *)
Lemma run_op_effect o w :
  userTable (run_op o w) = userTable w /\
  clock (run_op o w) = clock w /\
  (reads w <= reads (run_op o w))%nat /\
  forall s', In s' (sessionTable (run_op o w)) ->
             row_origin w (reads (run_op o w)) s' \/
             exists token uid,
               o = OpCreateSession token uid /\
               s' = mkSession (sessionIdOf token) uid
                              (clock w (reads w) + days 30).
Proof.
  destruct o as [token uid | token | sid | uid | token e | |]; cbn [run_op].
  - destruct (createSession token uid w) as [s0 w1 | e w1] eqn:E;
      cbn [world_after].
    + destruct (createSession_ok _ _ _ _ _ E) as (Hs & Hw & _ & _).
      rewrite Hw. cbn [sessionTable userTable clock reads set_sessionTable set_reads].
      repeat (split; [first [reflexivity | lia]|]). intros s' Hs'.
      apply in_app_or in Hs'. destruct Hs' as [Hin | [<-|[]]].
      * left. now left.
      * right. exists token, uid. split; [reflexivity | exact Hs].
    + unfold createSession, bind, Date_now, db_insert_session, ret in E.
      cbn [sessionTable userTable set_reads id userId] in E.
      assert (Hw : w1 = set_reads (S (reads w)) w).
      { destruct (has_session_id _ (sessionTable w)); [now inversion E|].
        destruct (has_user_id uid (userTable w)); cbn [negb] in E;
          [discriminate | now inversion E]. }
      rewrite Hw. cbn [sessionTable userTable clock reads set_reads].
      repeat (split; [first [reflexivity | lia]|]). intros s' Hs'.
      left. now left.
  - destruct (validate_effect token w)
      as (r & w1 & Hv & Hu & Hck & Hr & _ & _ & _ & _ & _ & Ho).
    rewrite Hv. cbn [world_after].
    split; [exact Hu|]. split; [exact Hck|]. split; [lia|]. auto.
  - cbn. repeat (split; [first [reflexivity | lia]|]). intros s' Hs'.
    left. left. apply delete_by_id_In in Hs'. exact (proj1 Hs').
  - cbn. repeat (split; [first [reflexivity | lia]|]). intros s' Hs'.
    left. left. apply delete_by_userId_In in Hs'. exact (proj1 Hs').
  - cbn. repeat (split; [first [reflexivity | lia]|]). intros s' Hs'.
    left. now left.
  - cbn. repeat (split; [first [reflexivity | lia]|]). intros s' Hs'.
    left. now left.
  - unfold getCurrentSession, bind, cookies_get.
    destruct (cached_effect (option_map c_value
                                        (cookie_get "session" (cookieStore w))) w)
      as (r & w' & Hc & Hu & Hck & Hr & _ & Ho).
    rewrite Hc. cbn [world_after].
    split; [exact Hu|]. split; [exact Hck|]. split; [lia|]. auto.
Qed.

(** What a returned session says about the call that returned it. *)
Lemma valid_result_row token w s u w' :
  validateSessionToken token w = Ok (Valid s u) w' ->
  exists s0,
    In s0 (sessionTable w) /\ id s0 = sessionIdOf token /\
    In u (userTable w) /\ user_id u = userId s0 /\
    clock w (reads w) < expiresAt s0 /\
    ((s = s0 /\ clock w (S (reads w)) < expiresAt s0 - days 15 /\
      reads w' = S (S (reads w)) /\ sessionTable w' = sessionTable w) \/
     (s = mkSession (id s0) (userId s0) (clock w (S (S (reads w))) + days 30) /\
      expiresAt s0 - days 15 <= clock w (S (reads w)) /\
      reads w' = S (S (S (reads w))) /\
      sessionTable w' =
      update_expiresAt (clock w (S (S (reads w))) + days 30) (id s0)
                       (sessionTable w))).
Proof.
  intros Hv.
  destruct (validate_cases token w)
    as [[_ H] | [(u0 & s0 & rest & E & _ & H)
             | [(u0 & s0 & rest & E & Hl & Hw & H)
               | (u0 & s0 & rest & E & Hl & Hw & H)]]];
    rewrite H in Hv; try discriminate;
    assert (Hin : In (u0, s0)
                     (rows_of (sessionIdOf token) (sessionTable w) (userTable w)))
      by (rewrite E; now left);
    apply rows_of_In in Hin; destruct Hin as (Hs & Hu & Hid & Hm);
    inversion Hv; subst s u w'; exists s0;
    (repeat (split; [first [assumption | now symmetry]|])).
  - right. repeat split; assumption.
  - left. repeat split; assumption.
Qed.

Lemma rows_of_nil_iff sid ss us :
  rows_of sid ss us = [] <->
  (forall s u, In s ss -> In u us -> id s = sid -> userId s <> user_id u).
Proof.
  split.
  - intros H s u Hs Hu Hid Hm.
    assert (Hin : In (u, s) (rows_of sid ss us))
      by (apply rows_of_In; auto).
    rewrite H in Hin. contradiction.
  - intros H. destruct (rows_of sid ss us) as [|[u s] rest] eqn:E; [reflexivity|].
    assert (Hin : In (u, s) (rows_of sid ss us)) by (rewrite E; now left).
    apply rows_of_In in Hin. destruct Hin as (Hs & Hu & Hid & Hm).
    destruct (H s u Hs Hu Hid Hm).
Qed.

Lemma created_tokens_cons o ops t :
  In t (created_tokens (o :: ops)) <->
  (exists uid, o = OpCreateSession t uid) \/ In t (created_tokens ops).
Proof.
  change (created_tokens (o :: ops))
    with ((match o with OpCreateSession t _ => [t] | _ => [] end)
            ++ created_tokens ops).
  rewrite in_app_iff. split; (intros [H|H]; [left | now right]).
  - destruct o; try contradiction. destruct H as [<-|[]]. eauto.
  - destruct H as [uid ->]. now left.
Qed.

(** A token without joined row stays so under every operation that does
    not create a session for its hash. *)
Lemma rows_nil_run_op sid o w :
  rows_of sid (sessionTable w) (userTable w) = [] ->
  (forall token uid, o = OpCreateSession token uid -> sessionIdOf token <> sid) ->
  rows_of sid (sessionTable (run_op o w)) (userTable (run_op o w)) = [].
Proof.
  intros Hnil Hcr. rewrite rows_of_nil_iff in *.
  destruct (run_op_effect o w) as (Hu & _ & _ & Ho). rewrite Hu.
  intros s' u Hs' Hin Hid.
  destruct (Ho s' Hs') as [[Hold | (s0 & k & Hs0 & _ & E)] | (token & uid & E1 & E2)].
  - now apply Hnil.
  - subst s'. cbn [id userId] in *. now apply Hnil.
  - subst s'. cbn [id] in Hid. destruct (Hcr token uid E1 Hid).
Qed.

Lemma rows_nil_run_ops sid ops : forall w,
  rows_of sid (sessionTable w) (userTable w) = [] ->
  (forall t, In t (created_tokens ops) -> sessionIdOf t <> sid) ->
  rows_of sid (sessionTable (run_ops ops w)) (userTable (run_ops ops w)) = [].
Proof.
  induction ops as [|o ops IH]; intros w Hnil Hcr; [exact Hnil|].
  change (run_ops (o :: ops) w) with (run_ops ops (run_op o w)).
  apply IH.
  - apply rows_nil_run_op; [assumption|]. intros token uid E.
    apply Hcr. apply created_tokens_cons. left. now exists uid.
  - intros t Ht. apply Hcr. apply created_tokens_cons. now right.
Qed.

Lemma rows_nil_after_no_session token w w1 :
  validateSessionToken token w = Ok NoSession w1 ->
  rows_of (sessionIdOf token) (sessionTable w1) (userTable w1) = [].
Proof.
  intros Hv.
  destruct (validate_cases token w)
    as [[E H] | [(u0 & s0 & rest & E & _ & H)
             | [(u0 & s0 & rest & E & _ & _ & H)
               | (u0 & s0 & rest & E & _ & _ & H)]]];
    rewrite H in Hv; try discriminate; inversion Hv; subst w1.
  - exact E.
  - cbn [sessionTable userTable set_sessionTable set_reads].
    assert (Hin : In (u0, s0)
                     (rows_of (sessionIdOf token) (sessionTable w) (userTable w)))
      by (rewrite E; now left).
    apply rows_of_In in Hin. destruct Hin as (_ & _ & Hid & _).
    rewrite <- Hid. apply rows_of_deleted.
Qed.

(** ** Rejection is final *)

(** X1.  Once [validateSessionToken] has answered "no session" for a
    token, it answers "no session" for it, changing nothing, after every
    sequence of session-manager operations in which no session is created
    for a token of the same hash; the clock plays no part. *)
Theorem no_session_is_final token w w1 ops :
  validateSessionToken token w = Ok NoSession w1 ->
  (forall t, In t (created_tokens ops) -> sessionIdOf t <> sessionIdOf token) ->
  validateSessionToken token (run_ops ops w1) = Ok NoSession (run_ops ops w1).
Proof.
  intros Hv Hcr. apply validate_absent. apply rows_nil_run_ops; [|assumption].
  now apply (rows_nil_after_no_session token w).
Qed.

(** X2.  [invalidateSession] on the hash of a token logs the token out:
    from then on, and until a session is created for a token of that hash,
    [validateSessionToken] answers "no session" for it, whatever the clock
    and whatever the other operations in between. *)
Theorem invalidateSession_logs_out token w ops :
  (forall t, In t (created_tokens ops) -> sessionIdOf t <> sessionIdOf token) ->
  exists w1,
    invalidateSession (sessionIdOf token) w = Ok tt w1 /\
    validateSessionToken token (run_ops ops w1) = Ok NoSession (run_ops ops w1).
Proof.
  intros Hcr. eexists. split; [reflexivity|].
  apply validate_absent. apply rows_nil_run_ops; [|assumption].
  cbn [sessionTable userTable set_sessionTable]. apply rows_of_deleted.
Qed.

Lemma no_row_of_user_run_op uid o w :
  (forall s, In s (sessionTable w) -> userId s <> uid) ->
  (forall token, o <> OpCreateSession token uid) ->
  forall s, In s (sessionTable (run_op o w)) -> userId s <> uid.
Proof.
  intros Hnone Hcr s' Hs'.
  destruct (run_op_effect o w) as (_ & _ & _ & Ho).
  destruct (Ho s' Hs') as [[Hold | (s0 & k & Hs0 & _ & E)] | (token & uid' & E1 & E2)].
  - now apply Hnone.
  - subst s'. cbn [userId]. now apply Hnone.
  - subst s'. cbn [userId]. intros ->. now apply (Hcr token).
Qed.

Lemma no_row_of_user_run_ops uid ops : forall w,
  (forall s, In s (sessionTable w) -> userId s <> uid) ->
  (forall token, ~ In (OpCreateSession token uid) ops) ->
  forall s, In s (sessionTable (run_ops ops w)) -> userId s <> uid.
Proof.
  induction ops as [|o ops IH]; intros w Hnone Hcr; [exact Hnone|].
  change (run_ops (o :: ops) w) with (run_ops ops (run_op o w)).
  apply IH.
  - apply no_row_of_user_run_op; [assumption|].
    intros token E. apply (Hcr token). left. now symmetry.
  - intros token Hin. apply (Hcr token). now right.
Qed.

(** X3.  [invalidateAllSessions(userId)] logs the user out everywhere:
    from then on, and until a session is created for that user, no call of
    [validateSessionToken], for whatever token, returns a session of that
    user. *)
Theorem invalidateAllSessions_logs_out uid w ops :
  (forall token, ~ In (OpCreateSession token uid) ops) ->
  exists w1,
    invalidateAllSessions uid w = Ok tt w1 /\
    forall token s u w2,
      validateSessionToken token (run_ops ops w1) = Ok (Valid s u) w2 ->
      userId s <> uid.
Proof.
  intros Hcr. eexists. split; [reflexivity|].
  intros token s u w2 Hv.
  destruct (valid_result_row _ _ _ _ _ Hv) as (s0 & Hs0 & _ & _ & _ & _ & Hs).
  assert (Hne : userId s0 <> uid).
  { revert Hs0. apply no_row_of_user_run_ops; [|assumption].
    cbn [sessionTable set_sessionTable]. intros s1 Hs1.
    apply delete_by_userId_In in Hs1. exact (proj2 Hs1). }
  destruct Hs as [(-> & _) | (-> & _)]; exact Hne.
Qed.

(** ** Sessions do not disturb each other *)

Lemma run_op_keeps o w s :
  In s (sessionTable w) -> ~ aimed_at s o -> In s (sessionTable (run_op o w)).
Proof.
  intros Hin Hna.
  destruct o as [token uid | token | sid | uid | token e | |];
    cbn [run_op aimed_at] in *.
  - destruct (createSession token uid w) as [s0 w1 | e w1] eqn:E;
      cbn [world_after].
    + destruct (createSession_ok _ _ _ _ _ E) as (_ & Hw & _ & _).
      rewrite Hw. cbn [sessionTable set_sessionTable].
      apply in_or_app. now left.
    + destruct (createSession_throw _ _ _ _ _ E) as [Ht _]. now rewrite Ht.
  - destruct (validate_cases token w)
      as [[_ H] | [(u0 & s0 & rest & E & _ & H)
               | [(u0 & s0 & rest & E & _ & _ & H)
                 | (u0 & s0 & rest & E & _ & _ & H)]]];
      rewrite H; cbn [world_after sessionTable set_sessionTable set_reads];
      try assumption;
      assert (Hr : In (u0, s0)
                      (rows_of (sessionIdOf token) (sessionTable w) (userTable w)))
        by (rewrite E; now left);
      apply rows_of_In in Hr; destruct Hr as (_ & _ & Hid & _).
    + apply delete_by_id_In. split; [assumption|]. congruence.
    + rewrite update_expiresAt_map. apply in_map_iff. exists s.
      split; [|assumption]. unfold renewed.
      destruct (String.eqb_spec (id s) (id s0)) as [E'|E']; [|reflexivity].
      destruct Hna. congruence.
  - cbn. apply delete_by_id_In. split; [assumption|]. congruence.
  - cbn. apply delete_by_userId_In. split; [assumption|]. congruence.
  - exact Hin.
  - exact Hin.
  - destruct Hna. exact I.
Qed.

(** X4.  A stored session stays in the table exactly as it is, expiry
    included, through every sequence of calls of [createSession],
    [validateSessionToken] on tokens of another hash, [invalidateSession]
    on other identifiers, [invalidateAllSessions] on other users and the
    two cookie functions. *)
Theorem sessions_are_isolated ops w s :
  In s (sessionTable w) ->
  Forall (fun o => ~ aimed_at s o) ops ->
  In s (sessionTable (run_ops ops w)).
Proof.
  revert w. induction ops as [|o ops IH]; intros w Hin Hall; [exact Hin|].
  change (run_ops (o :: ops) w) with (run_ops ops (run_op o w)).
  inversion Hall as [|o' ops' Ho Hrest]; subst o' ops'.
  apply IH; [|assumption]. now apply run_op_keeps.
Qed.

(** ** Expiry only moves forward, and never far *)

(** X5.  With unique session identifiers and a clock that does not run
    backwards, a session that [validateSessionToken] returns is the stored
    one or the stored one with an expiry at least fifteen days later, and
    it is the row stored under that identifier afterwards; with the clock
    standing still a renewal adds less than thirty days. *)
Theorem validation_extends_expiry token w s0 s u w' :
  NoDup (map id (sessionTable w)) ->
  In s0 (sessionTable w) -> id s0 = sessionIdOf token ->
  clock_monotone w ->
  validateSessionToken token w = Ok (Valid s u) w' ->
  id s = id s0 /\ userId s = userId s0 /\
  (s = s0 \/ expiresAt s0 + days 15 <= expiresAt s) /\
  In s (sessionTable w') /\
  (forall t, clock_stands_at t w -> expiresAt s < expiresAt s0 + days 30).
Proof.
  intros Hnd Hin Hid Hmono Hv.
  destruct (valid_result_row _ _ _ _ _ Hv)
    as (s1 & Hs1 & Hid1 & _ & _ & Hl & Hs).
  assert (s1 = s0) by (apply (unique_id_row _ _ _ Hnd Hs1 Hin); congruence).
  subst s1.
  destruct Hs as [(-> & Hk & Hr & Ht) | (-> & Hk & Hr & Ht)]; cbn [id userId expiresAt].
  - repeat split; [now left | now rewrite Ht |].
    intros t _. unfold days. lia.
  - repeat split.
    + right.
      assert (clock w (S (reads w)) <= clock w (S (S (reads w))))
        by (apply Hmono; lia).
      unfold days in *. lia.
    + rewrite Ht, update_expiresAt_map, <- renewed_self. now apply in_map.
    + intros t Hst. rewrite (stands_2 _ _ Hst).
      rewrite (stands_now _ _ Hst) in Hl. unfold days. lia.
Qed.

Lemma clock_monotone_run_op o w :
  clock_monotone w -> clock_monotone (run_op o w).
Proof.
  intros H i j Hi Hij. destruct (run_op_effect o w) as (_ & Hck & Hr & _).
  rewrite Hck. apply H; lia.
Qed.

Lemma expiry_bounded_run_op o w :
  clock_monotone w -> expiry_bounded w -> expiry_bounded (run_op o w).
Proof.
  intros Hmono Hb s' k Hs' Hk.
  destruct (run_op_effect o w) as (_ & Hck & Hr & Ho). rewrite Hck.
  destruct (Ho s' Hs') as [[Hold | (s0 & k0 & Hs0 & Hk0 & E)] | (token & uid & _ & E)].
  - apply Hb; [assumption | lia].
  - subst s'. cbn [expiresAt].
    assert (clock w k0 <= clock w k) by (apply Hmono; lia). lia.
  - subst s'. cbn [expiresAt].
    assert (clock w (reads w) <= clock w k) by (apply Hmono; lia). lia.
Qed.

Lemma expiry_bounded_run_ops ops : forall w,
  clock_monotone w -> expiry_bounded w ->
  clock_monotone (run_ops ops w) /\ expiry_bounded (run_ops ops w) /\
  clock (run_ops ops w) = clock w.
Proof.
  induction ops as [|o ops IH]; intros w Hmono Hb; [auto|].
  change (run_ops (o :: ops) w) with (run_ops ops (run_op o w)).
  destruct (IH (run_op o w)) as (H1 & H2 & H3).
  - now apply clock_monotone_run_op.
  - now apply expiry_bounded_run_op.
  - repeat split; try assumption. rewrite H3.
    exact (proj1 (proj2 (run_op_effect o w))).
Qed.

(** X6.  Start where no session expires more than thirty days ahead (an
    empty table, say) and let the clock never run backwards: after any
    sequence of session-manager operations that still holds, and a session
    that [validateSessionToken] then returns has, counted from the last
    clock reading of that call, more than fifteen and at most thirty days
    to live. *)
Theorem returned_lifetime_between_15_and_30_days ops w token s u w' :
  clock_monotone w -> expiry_bounded w ->
  validateSessionToken token (run_ops ops w) = Ok (Valid s u) w' ->
  expiry_bounded (run_ops ops w) /\
  clock w (Nat.pred (reads w')) + days 15 < expiresAt s /\
  expiresAt s <= clock w (Nat.pred (reads w')) + days 30.
Proof.
  intros Hmono Hb Hv.
  destruct (expiry_bounded_run_ops ops w Hmono Hb) as (_ & Hb' & Hck).
  split; [exact Hb'|].
  destruct (valid_outlives_last_reading _ _ _ _ _ Hv) as (_ & _ & Hlow).
  rewrite Hck in Hlow. split; [exact Hlow|].
  destruct (valid_result_row _ _ _ _ _ Hv) as (s0 & Hs0 & _ & _ & _ & _ & Hs).
  destruct Hs as [(-> & _ & Hr & _) | (-> & _ & Hr & _)]; rewrite Hr;
    cbn [Nat.pred expiresAt].
  - rewrite <- Hck. apply Hb'; [assumption | lia].
  - rewrite Hck. lia.
Qed.

(** ** A session in use does not expire *)

Lemma live_session_step token uid w :
  live_session token uid w -> clock_gaps_within_15_days w ->
  exists s' u w',
    validateSessionToken token w = Ok (Valid s' u) w' /\
    id s' = sessionIdOf token /\ userId s' = uid /\
    live_session token uid w' /\ clock_gaps_within_15_days w'.
Proof.
  intros [Hwf (s & Hin & Hid & Huid & Hl)] Hgap.
  pose proof Hwf as [Hnd Hfk].
  destruct (rows_of_stored _ (userTable w) _ Hnd Hin (Hfk s Hin))
    as (u & rest & E & _).
  rewrite Hid in E.
  pose proof (Hgap (reads w) (le_n _)) as G0.
  pose proof (Hgap (S (reads w)) (le_S _ _ (le_n _))) as G1.
  pose proof (Hgap (S (S (reads w))) (le_S _ _ (le_S _ _ (le_n _)))) as G2.
  destruct (Z_lt_le_dec (clock w (S (reads w))) (expiresAt s - days 15))
    as [Hk|Hk].
  - exists s, u. eexists.
    split; [apply validate_keep with (rest := rest); assumption|].
    split; [assumption|]. split; [assumption|]. split; [split|].
    + apply (wf_table_step w); [assumption | reflexivity | now left].
    + exists s. cbn [sessionTable clock reads set_reads].
      repeat split; try assumption. unfold days in *. lia.
    + intros k Hk'. cbn [clock reads set_reads] in *. apply Hgap. lia.
  - exists (mkSession (id s) (userId s) (clock w (S (S (reads w))) + days 30)), u.
    eexists.
    split; [apply validate_renew with (rest := rest); assumption|].
    cbn [id userId].
    split; [assumption|]. split; [assumption|]. split; [split|].
    + apply (wf_table_step w); [assumption | reflexivity|].
      right. right. right. cbn [sessionTable set_sessionTable set_reads]. eauto.
    + exists (mkSession (id s) (userId s)
                        (clock w (S (S (reads w))) + days 30)).
      cbn [sessionTable clock reads set_sessionTable set_reads].
      split; [|cbn [id userId expiresAt]; repeat split; try assumption].
      * rewrite update_expiresAt_map,
          <- (renewed_self (clock w (S (S (reads w))) + days 30) s).
        now apply in_map.
      * unfold days in *. lia.
    + intros k Hk'. cbn [clock reads set_sessionTable set_reads] in *.
      apply Hgap. lia.
Qed.

(** X7.  A stored session whose token is validated again and again, with
    no more than fifteen days between one clock reading and the next,
    never expires: every validation returns a session of the same
    identifier and user. *)
Theorem session_in_use_stays_alive token w s n :
  wf_db w -> In s (sessionTable w) -> id s = sessionIdOf token ->
  clock w (reads w) < expiresAt s ->
  clock_gaps_within_15_days w ->
  exists s' u w',
    validateSessionToken token (validate_times token n w) = Ok (Valid s' u) w' /\
    id s' = id s /\ userId s' = userId s.
Proof.
  intros Hwf Hin Hid Hl Hgap.
  assert (Hlive : live_session token (userId s) w).
  { split; [assumption|]. exists s. auto. }
  clear Hwf Hin Hl. revert w Hlive Hgap.
  induction n as [|n IH]; intros w Hlive Hgap;
    destruct (live_session_step _ _ _ Hlive Hgap)
      as (s' & u & w' & Hv & Hid' & Huid' & Hlive' & Hgap').
  - exists s', u, w'. cbn [validate_times]. repeat split; congruence.
  - cbn [validate_times]. rewrite Hv. cbn [world_after]. now apply IH.
Qed.

(** ** Tokens and cookies that are not there *)

(** X8.  A token whose hash is no stored identifier gets "no session"
    from [validateSessionToken] with the world exactly as it was: no
    clock reading, no write.  And [getCurrentSession] without a [session]
    cookie, on a cache miss, returns "no session" without calling
    [validateSessionToken]: tables, clock readings and cookies are as they
    were. *)
Theorem absent_token_or_cookie :
  (forall token w,
      (forall s, In s (sessionTable w) -> id s <> sessionIdOf token) ->
      validateSessionToken token w = Ok NoSession w) /\
  (forall w,
      cookie_get "session" (cookieStore w) = None ->
      find (fun e => key_eqb (ce_key e) None) (cacheStore w) = None ->
      exists w',
        getCurrentSession w = Ok NoSession w' /\
        sessionTable w' = sessionTable w /\ userTable w' = userTable w /\
        reads w' = reads w /\ cookieStore w' = cookieStore w /\
        cacheStore w' = cacheStore w ++ [mkCacheEntry None NoSession [] None]).
Proof.
  split.
  - intros token w H. apply validate_absent. now apply rows_of_absent.
  - intros w Hc Hmiss.
    unfold getCurrentSession, bind, cookies_get. rewrite Hc.
    cbn [option_map]. unfold getCurrentSessionCached, use_cache.
    rewrite Hmiss, body_no_token. eexists. split; [reflexivity|].
    repeat split.
Qed.

(** ** The cache stays well formed *)

Lemma key_eqb_eq a b : key_eqb a b = true <-> a = b.
Proof.
  destruct a as [x|], b as [y|]; cbn; split; intros H;
    try discriminate; try reflexivity.
  - apply String.eqb_eq in H. now subst.
  - inversion H. apply String.eqb_refl.
Qed.

Lemma find_none_key key store :
  find (fun e => key_eqb (ce_key e) key) store = None ->
  ~ In key (map ce_key store).
Proof.
  intros H Hin. apply in_map_iff in Hin. destruct Hin as (e & Hk & He).
  pose proof (find_none _ _ H e He) as Hf. cbn in Hf.
  rewrite Hk, key_eqb_refl in Hf. discriminate.
Qed.

(** What the cached lookup does to the cache: nothing, or one entry more,
    under an argument that had none. *)
Lemma cached_store key w :
  exists r w',
    getCurrentSessionCached key w = Ok r w' /\
    (cacheStore w' = cacheStore w \/
     (~ In key (map ce_key (cacheStore w)) /\
      exists e, cacheStore w' = cacheStore w ++ [e] /\
                ce_key e = key /\ entry_ok e)).
Proof.
  unfold getCurrentSessionCached, use_cache.
  destruct (find _ (cacheStore w)) as [e|] eqn:Hfind.
  - exists (ce_value e), w. split; [reflexivity | now left].
  - apply find_none_key in Hfind.
    set (w0 := set_cache (cacheStore w) [] None w).
    destruct key as [token|].
    + destruct (validate_effect token w0)
        as (r & w1 & Hv & _ & _ & _ & Hcs & Hst & Hsl & _).
      destruct r as [s u|].
      * destruct (body_valid _ _ _ _ _ Hv)
          as (w2 & Hb & _ & _ & _ & _ & Hcs2 & Hst2 & Hsl2).
        rewrite Hb. do 2 eexists. split; [reflexivity|]. right.
        split; [assumption|]. eexists. cbn [cacheStore set_cache].
        rewrite Hcs2, Hcs. split; [reflexivity|]. split; [reflexivity|].
        unfold entry_ok. cbn [ce_value ce_key ce_tags ce_life].
        split; [|split].
        -- exists token. split; [reflexivity|].
           exact (valid_result_id _ _ _ _ _ Hv).
        -- rewrite Hst2, Hst. reflexivity.
        -- eexists. split; [|exact Hsl2]. apply Z.le_max_l.
      * rewrite (body_no_session _ _ _ Hv). do 2 eexists.
        split; [reflexivity|]. right. split; [assumption|]. eexists.
        cbn [cacheStore set_cache]. rewrite Hcs.
        split; [reflexivity|]. split; [reflexivity|].
        unfold entry_ok. cbn [ce_value ce_tags ce_life].
        rewrite Hst, Hsl. split; reflexivity.
    + rewrite body_no_token. do 2 eexists. split; [reflexivity|]. right.
      split; [assumption|]. eexists. cbn [cacheStore set_cache].
      split; [reflexivity|]. split; [reflexivity|].
      unfold entry_ok. cbn. split; reflexivity.
Qed.

Lemma createSession_world token uid w :
  exists t, world_after (createSession token uid w) =
            set_sessionTable t (set_reads (S (reads w)) w).
Proof.
  unfold createSession, bind, Date_now, db_insert_session, ret.
  cbn [sessionTable userTable set_reads id userId].
  destruct (has_session_id _ (sessionTable w)).
  - exists (sessionTable w). cbn [world_after].
    now rewrite <- (set_sessionTable_same (set_reads (S (reads w)) w)) at 1.
  - destruct (has_user_id uid (userTable w)); cbn [negb world_after].
    + eexists. reflexivity.
    + exists (sessionTable w).
      now rewrite <- (set_sessionTable_same (set_reads (S (reads w)) w)) at 1.
Qed.

Lemma cache_ok_run_op o w :
  cache_ok (cacheStore w) -> cache_ok (cacheStore (run_op o w)).
Proof.
  intros Hok.
  destruct o as [token uid | token | sid | uid | token e | |]; cbn [run_op].
  - destruct (createSession_world token uid w) as [t ->]. exact Hok.
  - destruct (validate_effect token w) as (r & w1 & Hv & _ & _ & _ & Hcs & _).
    rewrite Hv. cbn [world_after]. now rewrite Hcs.
  - exact Hok.
  - exact Hok.
  - exact Hok.
  - exact Hok.
  - unfold getCurrentSession, bind, cookies_get.
    destruct (cached_store (option_map c_value
                                       (cookie_get "session" (cookieStore w))) w)
      as (r & w' & Hc & [Hsame | (Hnew & e & Hst & Hk & He)]);
      rewrite Hc; cbn [world_after].
    + now rewrite Hsame.
    + destruct Hok as [Hnd Hall]. rewrite Hst. split.
      * rewrite map_app. cbn [map]. apply NoDup_snoc; [assumption|].
        now rewrite Hk.
      * intros e' Hin. apply in_app_or in Hin.
        destruct Hin as [Hin | [<-|[]]]; [now apply Hall | exact He].
Qed.

(** X9.  The stored results of the cached lookup stay well formed through
    every sequence of session-manager operations: one entry per argument;
    every stored session is stored under a token whose hash is its
    identifier, carries the tag [session:<id>] and a lifetime
    [stale 0, revalidate r, expire r] with [0 <= r]; every stored
    "no session" carries no tag and no lifetime. *)
Theorem cache_stays_well_formed ops w :
  cache_ok (cacheStore w) -> cache_ok (cacheStore (run_ops ops w)).
Proof.
  revert w. induction ops as [|o ops IH]; intros w Hok; [exact Hok|].
  change (run_ops (o :: ops) w) with (run_ops ops (run_op o w)).
  apply IH. now apply cache_ok_run_op.
Qed.

(** ** Cookies *)

Lemma cookie_set_In c store d :
  In d (cookie_set c store) -> d = c \/ In d store.
Proof.
  induction store as [|a store IH]; cbn [cookie_set].
  - intros [<-|[]]. now left.
  - destruct (String.eqb (c_name a) (c_name c)).
    + intros [<-|H]; [now left | right; now right].
    + intros [<-|H]; [right; now left|].
      destruct (IH H); [now left | right; now right].
Qed.

Lemma cookie_set_In_unique c store d :
  NoDup (map c_name store) ->
  In d (cookie_set c store) -> c_name d = c_name c -> d = c.
Proof.
  induction store as [|a store IH]; cbn [cookie_set map]; intros Hnd Hin Hname.
  - destruct Hin as [<-|[]]. reflexivity.
  - inversion Hnd as [|x l Hnotin Hnd']; subst x l.
    destruct (String.eqb_spec (c_name a) (c_name c)) as [E|E].
    + destruct Hin as [<-|Hin]; [reflexivity|].
      destruct Hnotin. rewrite E, <- Hname. now apply in_map.
    + destruct Hin as [<-|Hin]; [congruence | now apply IH].
Qed.

Lemma cookie_set_NoDup c store :
  NoDup (map c_name store) -> NoDup (map c_name (cookie_set c store)).
Proof.
  induction store as [|a store IH]; cbn [cookie_set map]; intros Hnd.
  - constructor; [intros [] | constructor].
  - inversion Hnd as [|x l Hnotin Hnd']; subst x l.
    destruct (String.eqb_spec (c_name a) (c_name c)) as [E|E]; cbn [map].
    + constructor; [now rewrite <- E | assumption].
    + constructor; [|now apply IH].
      intros Hin. apply in_map_iff in Hin. destruct Hin as (d & Hd & Hin).
      destruct (cookie_set_In _ _ _ Hin) as [->|Hin'].
      * congruence.
      * apply Hnotin. rewrite <- Hd. now apply in_map.
Qed.


Lemma one_cookie_per_name name store c :
  NoDup (map c_name store) -> cookie_get name store = Some c ->
  List.length (filter (fun d => String.eqb (c_name d) name) store) = 1%nat.
Proof.
  unfold cookie_get.
  induction store as [|a store IH]; cbn [map find filter]; intros Hnd Hget;
    [discriminate|].
  inversion Hnd as [|x l Hnotin Hnd']; subst x l.
  destruct (String.eqb_spec (c_name a) name) as [E|E].
  - cbn [List.length]. f_equal. rewrite filter_none; [reflexivity|].
    intros d Hd. apply String.eqb_neq. intros Ed. apply Hnotin.
    rewrite E, <- Ed. now apply in_map.
  - now apply IH.
Qed.

(** X11.  [GET] called twice leaves, in a cookie store with one cookie
    per name, exactly one [google_oauth_state] and one
    [google_code_verifier] cookie: each is in the store, is the only cookie
    of its name, and holds the state and the verifier of the second call
    (the third and fourth draw) with the attributes [GET] gives; the second
    redirect goes to the URL built from these two strings; cookies of other
    names and the tables are untouched. *)
Theorem GET_again_replaces_oauth_cookies w :
  NoDup (map c_name (cookieStore w)) ->
  let state2 := entropy w (S (S (draws w))) in
  let codeVerifier2 := entropy w (S (S (S (draws w)))) in
  let secure := String.eqb (NODE_ENV w) "production" in
  let stateCookie :=
    mkCookie "google_oauth_state" state2 "/" true secure Lax (Some 600) None in
  let verifierCookie :=
    mkCookie "google_code_verifier" codeVerifier2 "/" true secure Lax
             (Some 600) None in
  exists r1 w1 w2,
    GET w = Ok r1 w1 /\
    GET w1 =
    Ok (mkResponse 302
          [("Location",
            URL_toString
              (mkURL
                 (url_base (createAuthorizationURL
                              state2 codeVerifier2 ["openid"; "profile"]))
                 (searchParams_set
                    "prompt" "select_account"
                    (url_searchParams
                       (createAuthorizationURL
                          state2 codeVerifier2 ["openid"; "profile"])))))]) w2 /\
    cookie_get "google_oauth_state" (cookieStore w2) = Some stateCookie /\
    cookie_get "google_code_verifier" (cookieStore w2) = Some verifierCookie /\
    In stateCookie (cookieStore w2) /\ In verifierCookie (cookieStore w2) /\
    (forall c, In c (cookieStore w2) -> c_name c = "google_oauth_state" ->
               c = stateCookie) /\
    (forall c, In c (cookieStore w2) -> c_name c = "google_code_verifier" ->
               c = verifierCookie) /\
    List.length (filter (fun c => String.eqb (c_name c) "google_oauth_state")
                        (cookieStore w2)) = 1%nat /\
    List.length (filter (fun c => String.eqb (c_name c) "google_code_verifier")
                        (cookieStore w2)) = 1%nat /\
    (forall name, name <> "google_oauth_state" ->
                  name <> "google_code_verifier" ->
                  cookie_get name (cookieStore w2) = cookie_get name (cookieStore w)) /\
    NoDup (map c_name (cookieStore w2)) /\
    sessionTable w2 = sessionTable w /\ userTable w2 = userTable w.
Proof.
  intros Hnd state2 codeVerifier2 secure stateCookie verifierCookie.
  set (st1 := mkCookie "google_oauth_state" (entropy w (draws w)) "/" true
                       secure Lax (Some (60 * 10)) None).
  set (cv1 := mkCookie "google_code_verifier" (entropy w (S (draws w))) "/" true
                       secure Lax (Some (60 * 10)) None).
  set (jar1 := cookie_set cv1 (cookie_set st1 (cookieStore w))).
  set (jar2 := cookie_set verifierCookie (cookie_set stateCookie jar1)).
  assert (H1 : NoDup (map c_name jar1)) by (now do 2 apply cookie_set_NoDup).
  assert (Hst2 : NoDup (map c_name (cookie_set stateCookie jar1)))
    by (now apply cookie_set_NoDup).
  assert (H2 : NoDup (map c_name jar2)) by (now apply cookie_set_NoDup).
  assert (Gs : cookie_get "google_oauth_state" jar2 = Some stateCookie).
  { subst jar2.
    rewrite (cookie_get_set_other "google_oauth_state" verifierCookie)
      by (cbn; discriminate).
    apply (cookie_get_set_same stateCookie). }
  assert (Gv : cookie_get "google_code_verifier" jar2 = Some verifierCookie)
    by (apply (cookie_get_set_same verifierCookie)).
  eexists. exists (set_cookieStore jar1 (set_draws (S (S (draws w))) w)).
  exists (set_cookieStore jar2 (set_draws (S (S (S (S (draws w))))) w)).
  split.
  { unfold GET, bind, generateState, generateCodeVerifier, draw, env_NODE_ENV,
      cookies_set, ret.
    cbn [entropy draws NODE_ENV cookieStore set_draws set_cookieStore].
    reflexivity. }
  split.
  { unfold GET, bind, generateState, generateCodeVerifier, draw, env_NODE_ENV,
      cookies_set, ret.
    cbn [entropy draws NODE_ENV cookieStore set_draws set_cookieStore].
    reflexivity. }
  cbn [cookieStore sessionTable userTable set_cookieStore set_draws].
  split; [exact Gs|]. split; [exact Gv|].
  split; [exact (proj1 (find_some _ _ Gs))|].
  split; [exact (proj1 (find_some _ _ Gv))|].
  split; [|split; [|split; [|split; [|split; [|split; [|split; reflexivity]]]]]].
  - intros c Hin Hn. subst jar2.
    destruct (cookie_set_In _ _ _ Hin) as [->|Hin'].
    + cbn in Hn. discriminate.
    + exact (cookie_set_In_unique stateCookie jar1 c H1 Hin' Hn).
  - intros c Hin Hn. subst jar2.
    exact (cookie_set_In_unique verifierCookie _ c Hst2 Hin Hn).
  - exact (one_cookie_per_name _ _ _ H2 Gs).
  - exact (one_cookie_per_name _ _ _ H2 Gv).
  - intros name N1 N2. subst jar2 jar1.
    rewrite (cookie_get_set_other name verifierCookie) by exact N2.
    rewrite (cookie_get_set_other name stateCookie) by exact N1.
    rewrite (cookie_get_set_other name cv1) by exact N2.
    now apply (cookie_get_set_other name st1).
  - exact H2.
Qed.

(** ** From login to the first lookup *)

(** X12.  A token fresh from [generateSessionToken], a session created
    for it with [createSession], and the token put in the cookie with
    [setSessionTokenCookie]: while the clock stands still and the cache
    holds nothing for that token, [getCurrentSession] returns the created
    session with a user row of the given identifier, reads the token from
    the cookie, and leaves the session in the table and in the cache under
    the tag [session:<id>]. *)
Theorem login_round_trip uid w token w1 s w2 w3 t :
  clock_stands_at t w ->
  find (fun e => key_eqb (ce_key e) (Some token)) (cacheStore w) = None ->
  generateSessionToken w = Ok token w1 ->
  createSession token uid w1 = Ok s w2 ->
  setSessionTokenCookie token (expiresAt s) w2 = Ok tt w3 ->
  exists u w4,
    getCurrentSession w3 = Ok (Valid s u) w4 /\
    user_id u = uid /\ In u (userTable w) /\
    s = mkSession (sessionIdOf token) uid (t + days 30) /\
    option_map c_value (cookie_get "session" (cookieStore w4)) = Some token /\
    In s (sessionTable w4) /\
    exists life,
      In (mkCacheEntry (Some token) (Valid s u)
                       [("session:" ++ id s)%string] (Some life))
         (cacheStore w4).
Proof.
  intros Ht Hmiss Hg Hc Hk.
  assert (Hw1 : w1 = set_draws (S (draws w)) w)
    by (unfold generateSessionToken in Hg; now inversion Hg).
  destruct (rows_after_create _ _ _ _ _ Hc) as (u & rest & E & Hu & Hid).
  destruct (createSession_ok _ _ _ _ _ Hc) as (Hs & Hw2 & _ & _).
  assert (Hw3 : w3 = set_cookieStore
                       (cookie_set
                          (mkCookie "session" token "/" true
                                    (String.eqb (NODE_ENV w2) "production")
                                    Lax None (Some (expiresAt s)))
                          (cookieStore w2)) w2)
    by (unfold setSessionTokenCookie, bind, env_NODE_ENV, cookies_set in Hk;
        now inversion Hk).
  assert (Hnow : clock w (reads w) = t) by (now apply stands_now).
  assert (Hs' : s = mkSession (sessionIdOf token) uid (t + days 30)).
  { rewrite Hs, Hw1. cbn [clock reads set_draws]. now rewrite Hnow. }
  assert (Hget : cookie_get "session" (cookieStore w3) =
                 Some (mkCookie "session" token "/" true
                                (String.eqb (NODE_ENV w2) "production")
                                Lax None (Some (expiresAt s)))).
  { rewrite Hw3. cbn [cookieStore set_cookieStore].
    apply (cookie_get_set_same
             (mkCookie "session" token "/" true
                       (String.eqb (NODE_ENV w2) "production")
                       Lax None (Some (expiresAt s)))). }
  assert (Hcs : cacheStore w3 = cacheStore w) by (now rewrite Hw3, Hw2, Hw1).
  unfold getCurrentSession, bind, cookies_get. rewrite Hget.
  cbn [option_map c_value].
  unfold getCurrentSessionCached, use_cache. rewrite Hcs, Hmiss.
  set (w0 := set_cache (cacheStore w) [] None w3).
  assert (Hv : validateSessionToken token w0 =
               Ok (Valid s u) (set_reads (S (S (reads w0))) w0)).
  { apply validate_keep with (rest := rest).
    - subst w0. rewrite Hw3. cbn [sessionTable userTable set_cache set_cookieStore].
      exact E.
    - subst w0. rewrite Hw3, Hw2, Hw1, Hs'.
      cbn [clock reads expiresAt set_cache set_cookieStore set_sessionTable
           set_reads set_draws].
      rewrite (stands_1 _ _ Ht). unfold days. lia.
    - subst w0. rewrite Hw3, Hw2, Hw1, Hs'.
      cbn [clock reads expiresAt set_cache set_cookieStore set_sessionTable
           set_reads set_draws].
      rewrite (stands_2 _ _ Ht). unfold days. lia. }
  destruct (body_valid _ _ _ _ _ Hv)
    as (w5 & Hb & Ht5 & _ & _ & _ & Hcs5 & Hst5 & Hsl5).
  rewrite Hb. exists u. eexists. split; [reflexivity|].
  split; [exact Hid|]. split; [now rewrite Hw1 in Hu|]. split; [exact Hs'|].
  unfold getCurrentSessionCached_body, bind in Hb. rewrite Hv in Hb.
  inversion Hb as [Hw5]. clear Hb.
  cbn [cookieStore sessionTable cacheStore set_cache set_reads].
  split; [|split].
  - subst w0. cbn [cookieStore set_cache]. now rewrite Hget.
  - subst w0. rewrite Hw3, Hw2.
    cbn [sessionTable set_cache set_cookieStore set_sessionTable].
    apply in_or_app. right. now left.
  - eexists. apply in_or_app. right. left.
    cbn [scopeTags scopeLife set_cache]. reflexivity.
Qed.

(** X13.  Given that the insert rejects a session identifier already in
    the table and a user identifier not in the user table, every sequence
    of session-manager operations keeps session identifiers unique and
    every session with its user row. *)
Theorem schema_constraints_are_kept ops w :
  wf_db w -> wf_db (run_ops ops w).
Proof. apply wf_db_run_ops. Qed.

End Sokoverse.

(** * Concrete runs *)

Arguments NoSession {Profile}.

(** Stand-ins for the external functions, to run the model on concrete
    worlds: the bytes of the string, a digest that only reverses them (it
    is not SHA-256), and lower-case hexadecimal. *)
Definition demo_encode (s : string) : list Byte.byte := list_byte_of_string s.

Definition demo_digest (bs : list Byte.byte) : list Byte.byte := rev bs.

Definition hex_digit (n : N) : Ascii.ascii :=
  nth (N.to_nat n)
      (list_ascii_of_string "0123456789abcdef") "0"%char.

Definition demo_hex (bs : list Byte.byte) : string :=
  string_of_list_ascii
    (flat_map (fun b => let n := Strings.Byte.to_N b in
                        [hex_digit (n / 16)%N; hex_digit (n mod 16)%N]) bs).

Definition demo_authorizationURL (state codeVerifier : string)
           (scopes : list string) : URL :=
  mkURL "https://accounts.google.com/o/oauth2/v2/auth"
        [("response_type", "code"); ("state", state);
         ("code_challenge", codeVerifier);
         ("scope", String.concat " " scopes)].

(** A plain serialiser (no percent-encoding). *)
Definition demo_URL_toString (u : URL) : string :=
  (url_base u ++ "?" ++
   String.concat "&" (map (fun p => fst p ++ "=" ++ snd p) (url_searchParams u)))%string.

Definition demo_id : string :=
  sessionIdOf demo_encode demo_digest demo_hex "tok".

Definition ada : User string := mkUser 7 "Ada".

(** A world with one user, the given sessions and the given clock. *)
Definition demo_world (ss : list Session) (clock : nat -> Z) : World string :=
  mkWorld ss [ada] clock 0 [] "production"
          (fun n => match n with O => "st4te" | _ => "v3rifier" end) 0
          [] [] None.

Definition w_fresh : World string := demo_world [] (fun _ => 1000).

Definition s_created : Session := mkSession demo_id 7 (1000 + days 30).

Definition w_created : World string :=
  world_after (createSession demo_encode demo_digest demo_hex "tok" 7 w_fresh).

(** A stored session of Ada's for the token ["tok"], expiring at day 30,
    seen on day 20 (inside the renewal window), on day 1 (before it) and on
    day 31 (after the expiry). *)
Definition s_stored : Session := mkSession demo_id 7 (days 30).

Definition w_window : World string := demo_world [s_stored] (fun _ => days 20).
Definition w_early : World string := demo_world [s_stored] (fun _ => days 1).
Definition w_expired : World string := demo_world [s_stored] (fun _ => days 31).

(** The clock of the example: creation at 0, three readings on day 20, and
    day 51 from then on. *)
Definition w_example : World string :=
  demo_world [] (fun k => match k with
                          | O => 0
                          | S O | S (S O) | S (S (S O)) => days 20
                          | _ => days 51
                          end).

(** Closed comparisons of integers, by computation. *)
Ltac by_computation :=
  repeat split; vm_compute;
  first [ reflexivity | discriminate | let E := fresh in intros E; discriminate E ].

(** The demo worlds keep the schema's constraints. *)
Lemma wf_demo_world clock : wf_db (demo_world [s_stored] clock).
Proof.
  split.
  - constructor; [intros [] | constructor].
  - intros s [<-|[]]. exists ada. split; [left; reflexivity | reflexivity].
Defined.

Example demo_id_value : demo_id = "6b6f74".
Proof. reflexivity. Qed.

(** Ada's session for ["tok"], created at time 1000 and validated at once. *)
Lemma validate_after_create_witness :
  exists u w'',
    validateSessionToken demo_encode demo_digest demo_hex "tok" w_created =
    Ok (Valid s_created u) w'' /\
    user_id u = 7 /\ sessionTable w'' = [s_created].
Proof.
  destruct (validate_after_create string demo_encode demo_digest demo_hex
                                  "tok" 7 w_fresh s_created w_created)
    as (u & w'' & Hv & _ & Hid & _ & _ & Ht).
  - exists ada. split; [left; reflexivity | reflexivity].
  - exists 1000. intros k. reflexivity.
  - reflexivity.
  - exists u, w''. repeat split; assumption.
Defined.

(** Day 20 renews to day 50, day 1 leaves the session alone, and the
    example of the specification runs as it says. *)
Lemma sliding_renewal_witness :
  (exists u w',
      validateSessionToken demo_encode demo_digest demo_hex "tok" w_window =
      Ok (Valid (mkSession demo_id 7 (days 50)) u) w' /\
      sessionTable w' = [mkSession demo_id 7 (days 50)]) /\
  (exists u w',
      validateSessionToken demo_encode demo_digest demo_hex "tok" w_early =
      Ok (Valid s_stored u) w' /\
      sessionTable w' = [s_stored]) /\
  (exists u w2 w3,
      validateSessionToken demo_encode demo_digest demo_hex "tok"
        (world_after (createSession demo_encode demo_digest demo_hex
                                    "tok" 7 w_example)) =
      Ok (Valid (mkSession demo_id 7 (days 50)) u) w2 /\
      validateSessionToken demo_encode demo_digest demo_hex "tok" w2 =
      Ok NoSession w3).
Proof.
  pose proof (sliding_renewal string demo_encode demo_digest demo_hex)
    as [Hgen Hex].
  split; [|split].
  - destruct (Hgen "tok" w_window s_stored (days 20)) as [Hin _].
    + apply wf_demo_world.
    + left. reflexivity.
    + reflexivity.
    + intros k. reflexivity.
    + destruct Hin as (u & w' & Hv & Ht & _).
      * by_computation.
      * exists u, w'. split; [exact Hv | rewrite Ht; reflexivity].
  - destruct (Hgen "tok" w_early s_stored (days 1)) as [_ Hout].
    + apply wf_demo_world.
    + left. reflexivity.
    + reflexivity.
    + intros k. reflexivity.
    + destruct Hout as (u & w' & Hv & Ht).
      * reflexivity.
      * exists u, w'. split; [exact Hv | rewrite Ht; reflexivity].
  - destruct (Hex "tok" 7 w_example (mkSession demo_id 7 (0 + days 30))
                  (world_after (createSession demo_encode demo_digest demo_hex
                                              "tok" 7 w_example)) 0)
      as (u & w2 & w3 & _ & Hv1 & Hv2 & _); try reflexivity.
    exists u, w2, w3. split; [exact Hv1 | exact Hv2].
Defined.

(** On day 31 the session of day 30 is gone. *)
Lemma expired_session_is_deleted_witness :
  exists w',
    validateSessionToken demo_encode demo_digest demo_hex "tok" w_expired =
    Ok NoSession w' /\
    sessionTable w' = [].
Proof.
  destruct (expired_session_is_deleted string demo_encode demo_digest demo_hex
                                       "tok" w_expired s_stored)
    as (w' & Hv & Ht & _).
  - apply wf_demo_world.
  - left. reflexivity.
  - reflexivity.
  - by_computation.
  - exists w'. split; [exact Hv | rewrite Ht; reflexivity].
Defined.

(** On day 1 the stored session is present, unexpired and owned. *)
Lemma valid_iff_present_unexpired_owned_witness :
  exists s u w',
    validateSessionToken demo_encode demo_digest demo_hex "tok" w_early =
    Ok (Valid s u) w'.
Proof.
  apply (proj2 (proj1 (valid_iff_present_unexpired_owned
                         string demo_encode demo_digest demo_hex "tok" w_early
                         (proj1 (wf_demo_world (fun _ => days 1)))))).
  exists s_stored. split; [left; reflexivity|]. split; [reflexivity|].
  split; [reflexivity|]. exists ada. split; [left; reflexivity | reflexivity].
Defined.

(** On day 1 the stored session comes back with 29 days left; on day 20
    it comes back renewed to day 50, thirty days ahead. *)
Lemma returned_session_outlives_15_days_witness :
  (exists s u w',
      validateSessionToken demo_encode demo_digest demo_hex "tok" w_early =
      Ok (Valid s u) w' /\
      days 1 + days 15 < expiresAt s /\ s = s_stored) /\
  (exists s u w',
      validateSessionToken demo_encode demo_digest demo_hex "tok" w_window =
      Ok (Valid s u) w' /\
      days 20 + days 15 < expiresAt s /\
      s = mkSession demo_id 7 (days 20 + days 30)) /\
  (exists s0,
      In s0 (sessionTable w_window) /\
      mkSession demo_id 7 (days 50) =
      mkSession (id s0) (userId s0) (clock w_window 2 + days 30)).
Proof.
  pose proof (returned_session_outlives_15_days
                string demo_encode demo_digest demo_hex) as [Hret Hstored].
  split; [|split].
  - destruct (Hstored "tok" w_early s_stored (days 1))
      as (s & u & w' & Hv & Hlong & Hkeep & _).
    + apply wf_demo_world.
    + left. reflexivity.
    + reflexivity.
    + intros k. reflexivity.
    + by_computation.
    + exists s, u, w'. split; [exact Hv|]. split; [exact Hlong|].
      apply Hkeep. by_computation.
  - destruct (Hstored "tok" w_window s_stored (days 20))
      as (s & u & w' & Hv & Hlong & _ & Hrenew).
    + apply wf_demo_world.
    + left. reflexivity.
    + reflexivity.
    + intros k. reflexivity.
    + by_computation.
    + exists s, u, w'. split; [exact Hv|]. split; [exact Hlong|].
      apply Hrenew. by_computation.
  - destruct (Hret "tok" w_window (mkSession demo_id 7 (days 50)) ada
                   (world_after (validateSessionToken
                                   demo_encode demo_digest demo_hex
                                   "tok" w_window)))
      as (s0 & Hin & _ & _ & [(Hout & _) | (_ & Hs & _)] & _).
    + reflexivity.
    + exfalso. destruct Hin as [<-|[]]. revert Hout. by_computation.
    + exists s0. split; [exact Hin | exact Hs].
Defined.

(** Two validations on day 20: both return the expiry of day 50. *)
Lemma renewal_idempotent_witness :
  (exists w',
      validateSessionToken demo_encode demo_digest demo_hex "tok" w_window =
      Ok (Valid (mkSession demo_id 7 (days 50)) ada) w' /\
      sessionTable w' = [mkSession demo_id 7 (days 50)]) /\
  (exists w2,
      validateSessionToken demo_encode demo_digest demo_hex "tok"
        (world_after (validateSessionToken demo_encode demo_digest demo_hex
                                           "tok" w_window)) =
      Ok (Valid (mkSession demo_id 7 (days 50)) ada) w2 /\
      sessionTable w2 = [mkSession demo_id 7 (days 50)]).
Proof.
  pose proof (renewal_idempotent string demo_encode demo_digest demo_hex)
    as (Hwrite & _ & _ & Htwice).
  split.
  - destruct (Hwrite "tok" w_window ada s_stored [] (days 20))
      as (w' & Hv & Ht).
    + reflexivity.
    + intros k. reflexivity.
    + by_computation.
    + exists w'. split; [exact Hv | rewrite Ht; reflexivity].
  - destruct (Htwice "tok" w_window (days 20)
                     (Valid (mkSession demo_id 7 (days 50)) ada)
                     (world_after (validateSessionToken
                                     demo_encode demo_digest demo_hex
                                     "tok" w_window)))
      as (w2 & Hv & Ht).
    + intros k. reflexivity.
    + reflexivity.
    + exists w2. split; [exact Hv | rewrite Ht; reflexivity].
Defined.

(** Nothing matches the identifier ["0000"] or the user 8; user 7 loses
    the one session there is. *)
Lemma invalidate_frame_witness :
  invalidateSession "0000" w_early = Ok tt w_early /\
  invalidateAllSessions 8 w_early = Ok tt w_early /\
  exists w', invalidateAllSessions 7 w_early = Ok tt w' /\
             sessionTable w' = [].
Proof.
  pose proof (invalidate_frame string) as (Hall & Hnop1 & Hnop2 & _).
  split; [|split].
  - apply Hnop1. intros s [<-|[]]. by_computation.
  - apply Hnop2. intros s [<-|[]]. by_computation.
  - destruct (Hall 7 w_early) as (w' & Hv & _).
    exists w'. split; [exact Hv|].
    inversion Hv. reflexivity.
Defined.

(** After a run of five operations the stored identifier is the hash of
    the one token created. *)
Lemma raw_token_never_persisted_witness :
  exists token,
    In token ["tok"] /\
    id s_created = sessionIdOf demo_encode demo_digest demo_hex token.
Proof.
  destruct (proj1 (proj2 (proj2 (proj2 (proj2
              (raw_token_never_persisted string demo_encode demo_digest
                                         demo_hex)))))
              [OpCreateSession "tok" 7; OpValidateSessionToken "tok";
               OpGetCurrentSession; OpInvalidateAllSessions 9;
               OpSetSessionTokenCookie "tok" 0]
              w_fresh s_created)
    as [Hold | Hnew].
  - left. reflexivity.
  - destruct Hold.
  - exact Hnew.
Defined.

(** A first lookup of ["tok"] on day 1 stores one entry. *)
Lemma cached_lookup_entry_witness :
  exists r w' tags life,
    getCurrentSessionCached demo_encode demo_digest demo_hex (Some "tok") w_early
    = Ok r w' /\
    cacheStore w' = [mkCacheEntry (Some "tok") r tags life].
Proof.
  destruct (proj2 (cached_lookup_entry string demo_encode demo_digest demo_hex)
                  (Some "tok") w_early)
    as (r & w' & tags & life & Hv & Hc & _).
  - reflexivity.
  - exists r, w', tags, life. split; [exact Hv | exact Hc].
Defined.

(** C6, as the claim states it, fails on a token that has no session: the
    result is stored, but with no tag and with no lifetime declared. *)
Lemma cached_no_session_is_untagged :
  cacheStore
    (world_after (getCurrentSessionCached demo_encode demo_digest demo_hex
                                          (Some "stale") w_early))
  = [mkCacheEntry (Some "stale") NoSession [] None] /\
  ~ (forall e,
        In e (cacheStore
                (world_after
                   (getCurrentSessionCached demo_encode demo_digest demo_hex
                                            (Some "stale") w_early))) ->
        exists sid l,
          In ("session:" ++ sid)%string (ce_tags e) /\ ce_life e = Some l).
Proof.
  split; [reflexivity|].
  intros H.
  destruct (H (mkCacheEntry (Some "stale") NoSession [] None))
    as (sid & l & Htag & _).
  - left. reflexivity.
  - exact Htag.
Qed.

(** The cached entry of a live session, computed: one tag, and a lifetime
    of the 29 days that remain, in seconds. *)
Example cached_session_entry :
  cacheStore
    (world_after (getCurrentSessionCached demo_encode demo_digest demo_hex
                                          (Some "tok") w_early))
  = [mkCacheEntry (Some "tok") (Valid s_stored ada) ["session:6b6f74"]
                  (Some (mkCacheLife 0 2505600 2505600))].
Proof. reflexivity. Qed.

(** The login route, computed on the demo world. *)
Example GET_demo :
  match GET demo_authorizationURL demo_URL_toString w_fresh with
  | Ok response w' =>
      response =
      mkResponse 302
        [("Location",
          "https://accounts.google.com/o/oauth2/v2/auth?response_type=code&state=st4te&code_challenge=v3rifier&scope=openid profile&prompt=select_account")] /\
      map c_name (cookieStore w') = ["google_oauth_state"; "google_code_verifier"] /\
      map c_value (cookieStore w') = ["st4te"; "v3rifier"] /\
      map c_secure (cookieStore w') = [true; true] /\
      map c_maxAge (cookieStore w') = [Some 600; Some 600]
  | _ => False
  end.
Proof. vm_compute. repeat split. Qed.

(** * Concrete runs of the further properties *)

(** Stand-ins for the random bytes (all bytes 42) and for the base32
    encoder (hexadecimal again). *)
Definition demo_randomValues (k n : nat) : list Byte.byte := repeat Byte.x2a n.

Definition demo_base32 (bs : list Byte.byte) : string := demo_hex bs.

(** Ada's stored session, with a clock that advances ten days at every
    reading. *)
Definition w_walk : World string :=
  demo_world [s_stored] (fun k => days 1 + days 10 * Z.of_nat k).

Definition ops_elsewhere : list Op :=
  [OpCreateSession "other" 7; OpValidateSessionToken "other";
   OpInvalidateSession "0000"; OpInvalidateAllSessions 8;
   OpSetSessionTokenCookie "other" 0; OpDeleteSessionTokenCookie].

Definition ops_lookup : list Op :=
  [OpSetSessionTokenCookie "tok" 0; OpGetCurrentSession;
   OpDeleteSessionTokenCookie; OpGetCurrentSession; OpGetCurrentSession].

Ltac not_in_the_list :=
  let H := fresh in
  intros H; vm_compute in H;
  repeat match goal with
         | H : _ \/ _ |- _ => destruct H
         | H : False |- _ => destruct H
         | H : _ = _ |- _ => discriminate H
         end.

(** The expired session of ["tok"] stays rejected through other
    operations, a lookup included. *)
Lemma no_session_is_final_witness :
  validateSessionToken
    demo_encode demo_digest demo_hex "tok"
    (run_ops demo_encode demo_digest demo_hex
             (ops_elsewhere ++ [OpGetCurrentSession])
             (world_after (validateSessionToken demo_encode demo_digest demo_hex
                                                "tok" w_expired))) =
  Ok NoSession
     (run_ops demo_encode demo_digest demo_hex
              (ops_elsewhere ++ [OpGetCurrentSession])
              (world_after (validateSessionToken demo_encode demo_digest demo_hex
                                                 "tok" w_expired))).
Proof.
  apply (no_session_is_final string demo_encode demo_digest demo_hex
                             "tok" w_expired).
  - reflexivity.
  - intros t Ht. vm_compute in Ht. destruct Ht as [<-|[]]. by_computation.
Defined.

(** Logging ["tok"] out of the live world. *)
Lemma invalidateSession_logs_out_witness :
  exists w1,
    invalidateSession demo_id w_early = Ok tt w1 /\
    validateSessionToken demo_encode demo_digest demo_hex "tok"
                         (run_ops demo_encode demo_digest demo_hex
                                  ops_elsewhere w1) =
    Ok NoSession (run_ops demo_encode demo_digest demo_hex ops_elsewhere w1).
Proof.
  apply (invalidateSession_logs_out string demo_encode demo_digest demo_hex
                                    "tok" w_early ops_elsewhere).
  intros t Ht. vm_compute in Ht. destruct Ht as [<-|[]]. by_computation.
Defined.

(** Logging Ada out everywhere. *)
Lemma invalidateAllSessions_logs_out_witness :
  exists w1,
    invalidateAllSessions 7 w_early = Ok tt w1 /\
    forall token s u w2,
      validateSessionToken demo_encode demo_digest demo_hex token
                           (run_ops demo_encode demo_digest demo_hex
                                    [OpCreateSession "x" 8;
                                     OpValidateSessionToken "tok"] w1) =
      Ok (Valid s u) w2 ->
      userId s <> 7.
Proof.
  apply (invalidateAllSessions_logs_out
           string demo_encode demo_digest demo_hex 7 w_early
           [OpCreateSession "x" 8; OpValidateSessionToken "tok"]).
  intros token [E|[E|[]]]; discriminate E.
Defined.

(** Ada's session is still there after operations on other sessions. *)
Lemma sessions_are_isolated_witness :
  In s_stored
     (sessionTable (run_ops demo_encode demo_digest demo_hex
                            ops_elsewhere w_early)).
Proof.
  apply (sessions_are_isolated string demo_encode demo_digest demo_hex
                               ops_elsewhere w_early s_stored).
  - left. reflexivity.
  - repeat constructor; not_in_the_list.
Defined.

(** The renewal of day 20 adds twenty days to the expiry of day 30. *)
Lemma validation_extends_expiry_witness :
  mkSession demo_id 7 (days 50) = s_stored \/
  expiresAt s_stored + days 15 <= days 50.
Proof.
  refine (proj1 (proj2 (proj2
            (validation_extends_expiry
               string demo_encode demo_digest demo_hex "tok" w_window
               s_stored (mkSession demo_id 7 (days 50)) ada
               (world_after (validateSessionToken demo_encode demo_digest
                                                  demo_hex "tok" w_window))
               _ _ _ _ _)))).
  - exact (proj1 (wf_demo_world (fun _ => days 20))).
  - left. reflexivity.
  - reflexivity.
  - intros i j _ _. by_computation.
  - reflexivity.
Defined.

(** A session created in the empty table and validated at once has
    thirty days to live. *)
Lemma returned_lifetime_between_15_and_30_days_witness :
  1000 + days 15 < expiresAt s_created /\
  expiresAt s_created <= 1000 + days 30.
Proof.
  refine (proj2 (returned_lifetime_between_15_and_30_days
                   string demo_encode demo_digest demo_hex
                   [OpCreateSession "tok" 7] w_fresh "tok" s_created ada
                   (world_after
                      (validateSessionToken
                         demo_encode demo_digest demo_hex "tok"
                         (run_ops demo_encode demo_digest demo_hex
                                  [OpCreateSession "tok" 7] w_fresh)))
                   _ _ _)).
  - intros i j _ _. by_computation.
  - intros s k [].
  - reflexivity.
Defined.

(** Five validations ten days apart, and the sixth still succeeds. *)
Lemma session_in_use_stays_alive_witness :
  exists s' u w',
    validateSessionToken
      demo_encode demo_digest demo_hex "tok"
      (validate_times demo_encode demo_digest demo_hex "tok" 5 w_walk) =
    Ok (Valid s' u) w' /\
    id s' = demo_id /\ userId s' = 7.
Proof.
  apply (session_in_use_stays_alive string demo_encode demo_digest demo_hex
                                    "tok" w_walk s_stored 5).
  - apply wf_demo_world.
  - left. reflexivity.
  - reflexivity.
  - by_computation.
  - intros k _. cbn [clock w_walk demo_world].
    rewrite Nat2Z.inj_succ. unfold days. lia.
Defined.

(** An unknown token in the live world. *)
Lemma absent_token_or_cookie_witness :
  validateSessionToken demo_encode demo_digest demo_hex "nope" w_early =
  Ok NoSession w_early /\
  exists w',
    getCurrentSession demo_encode demo_digest demo_hex w_early =
    Ok NoSession w' /\
    sessionTable w' = [s_stored] /\ reads w' = 0%nat.
Proof.
  pose proof (absent_token_or_cookie string demo_encode demo_digest demo_hex)
    as [Htoken Hcookie].
  split.
  - apply Htoken. intros s [<-|[]]. by_computation.
  - destruct (Hcookie w_early) as (w' & Hv & Ht & _ & Hr & _);
      [reflexivity | reflexivity |].
    exists w'. repeat split; assumption.
Defined.

Lemma cache_ok_empty :
  cache_ok demo_encode demo_digest demo_hex (cacheStore w_early).
Proof. split; [constructor | intros e []]. Defined.

(** Lookups with the cookie set, cleared and cleared again. *)
Lemma cache_stays_well_formed_witness :
  cache_ok demo_encode demo_digest demo_hex
           (cacheStore (run_ops demo_encode demo_digest demo_hex
                                ops_lookup w_early)).
Proof.
  apply (cache_stays_well_formed string demo_encode demo_digest demo_hex
                                 ops_lookup w_early).
  exact cache_ok_empty.
Defined.


(** A world with a cookie of another name, and four different draws. *)
Definition w_oauth : World string :=
  mkWorld [] [ada] (fun _ => 1000) 0
          [mkCookie "theme" "blue" "/" false false Lax None None]
          "development"
          (fun n => match n with
                    | O => "state-1"
                    | S O => "verifier-1"
                    | S (S O) => "state-2"
                    | _ => "verifier-2"
                    end) 0 [] [] None.

(** Two calls of the login route: the store ends with the [theme] cookie
    and the two cookies of the second call, in that order. *)
Lemma GET_again_replaces_oauth_cookies_witness :
  exists r1 w1 r2 w2,
    GET demo_authorizationURL demo_URL_toString w_oauth = Ok r1 w1 /\
    GET demo_authorizationURL demo_URL_toString w1 = Ok r2 w2 /\
    map (fun c => (c_name c, c_value c)) (cookieStore w2) =
    [("theme", "blue"); ("google_oauth_state", "state-2");
     ("google_code_verifier", "verifier-2")] /\
    cookie_get "google_oauth_state" (cookieStore w2) =
    Some (mkCookie "google_oauth_state" "state-2" "/" true false Lax
                   (Some 600) None) /\
    cookie_get "google_code_verifier" (cookieStore w2) =
    Some (mkCookie "google_code_verifier" "verifier-2" "/" true false Lax
                   (Some 600) None).
Proof.
  destruct (GET_again_replaces_oauth_cookies
              string demo_authorizationURL demo_URL_toString w_oauth)
    as (r1 & w1 & w2 & H1 & H2 & Gs & Gv & _).
  - constructor; [intros [] | constructor].
  - exists r1, w1. do 2 eexists. split; [exact H1|]. split; [exact H2|].
    split; [|split; [exact Gs | exact Gv]].
    assert (E1 : w1 = world_after (GET demo_authorizationURL demo_URL_toString
                                       w_oauth))
      by (now rewrite H1).
    assert (E2 : w2 = world_after (GET demo_authorizationURL demo_URL_toString
                                       w1))
      by (now rewrite H2).
    rewrite E2, E1. reflexivity.
Defined.

Definition demo_token : string := demo_base32 (demo_randomValues 0 20).

Definition w_token : World string :=
  world_after (generateSessionToken demo_randomValues demo_base32 w_fresh).

Definition s_login : Session :=
  mkSession (sessionIdOf demo_encode demo_digest demo_hex demo_token) 7
            (1000 + days 30).

Definition w_login : World string :=
  world_after (createSession demo_encode demo_digest demo_hex demo_token 7 w_token).

Definition w_cookie : World string :=
  world_after (setSessionTokenCookie demo_token (expiresAt s_login) w_login).

(** The login of Ada on the fresh world. *)
Lemma login_round_trip_witness :
  exists u w4,
    getCurrentSession demo_encode demo_digest demo_hex w_cookie =
    Ok (Valid s_login u) w4 /\
    user_id u = 7.
Proof.
  destruct (login_round_trip string demo_encode demo_digest demo_hex
                             demo_randomValues demo_base32
                             7 w_fresh demo_token w_token s_login w_login
                             w_cookie 1000)
    as (u & w4 & Hv & Hu & _).
  - intros k. reflexivity.
  - reflexivity.
  - reflexivity.
  - reflexivity.
  - reflexivity.
  - exists u, w4. split; assumption.
Defined.

(** The demo worlds stay well formed. *)
Lemma schema_constraints_are_kept_witness :
  wf_db (run_ops demo_encode demo_digest demo_hex
                 (ops_elsewhere ++ ops_lookup) w_early).
Proof.
  apply (schema_constraints_are_kept string demo_encode demo_digest demo_hex).
  apply wf_demo_world.
Defined.

(** A gap of twenty-nine days is too long, although a session lives
    thirty days: created at 0, validated on day 1, validated again on day
    30, the session is gone. *)
Example gap_of_29_days_expires :
  validateSessionToken
    demo_encode demo_digest demo_hex "tok"
    (run_ops demo_encode demo_digest demo_hex
             [OpCreateSession "tok" 7; OpValidateSessionToken "tok"]
             (demo_world [] (fun k => match k with
                                      | O => 0
                                      | S O | S (S O) => days 1
                                      | _ => days 30
                                      end))) =
  Ok NoSession
     (mkWorld [] [ada]
              (fun k => match k with
                        | O => 0
                        | S O | S (S O) => days 1
                        | _ => days 30
                        end)
              4 [] "production"
              (fun n => match n with O => "st4te" | _ => "v3rifier" end) 0
              [] [] None).
Proof. reflexivity. Qed.
